(** * detect_dip.py: dip classification and multi-scale dip discovery

    A shallow embedding of [src/detect_dip.py].

    Numbers.  Python floats are modelled as exact rationals ([Q]); rounding,
    infinities and NaN are outside the model.  Python ints are [Z].  The
    literals of the source are the corresponding fractions ([1e-9] is
    [1 # 10^9], [1.349] is [1349 # 1000], ...).

    Exceptions.  A call that raises in Python returns [Raise e]; a call that
    returns [v] gives [Ok v].

    The optional numpy layer.  The module binds [np] to numpy or to [None];
    every function that tests [np is not None] takes the flag [np : bool]
    ([true]: numpy present).  Two float divisions behave differently under
    the two bindings because numpy's float64 scalars do not raise on a zero
    divisor; both are written out where they occur.  With numpy the series
    is an array and so are its slices: [detect_dip] hands two of them to
    [_trimmed_mean], whose test [if values] raises on an array of two
    elements ([_trimmed_mean_of_array]).

    The C math library.  [math.exp], [math.tanh] and [math.sqrt] are taken as
    a parameter ([MathLib]) together with the two facts about them the proofs
    use. *)

From Stdlib Require Import ZArith QArith Qabs Qround List Sorted Bool String Lia Lqa.
Import ListNotations.

Local Open Scope Z_scope.

(** ** Exceptions *)

Inductive exn : Set :=
| ValueError
| ZeroDivisionError
| OverflowError.

Inductive result (A : Type) : Type :=
| Ok (a : A)
| Raise (e : exn).

Arguments Ok {A} a.
Arguments Raise {A} e.

Definition bind {A B : Type} (r : result A) (f : A -> result B) : result B :=
  match r with
  | Ok a => f a
  | Raise e => Raise e
  end.

Notation "x <- r ;; k" := (bind r (fun x => k))
  (at level 61, r at next level, right associativity).

(** ** Rational arithmetic as the source uses it *)

Definition Qleb (a b : Q) : bool := Qle_bool a b.
Definition Qltb (a b : Q) : bool := negb (Qle_bool b a).
Definition Qeqb (a b : Q) : bool := Qeq_bool a b.

(** Python's [max(a, b)] and [min(a, b)] return the first argument unless the
    second is strictly larger (smaller). *)
Definition pymax (a b : Q) : Q := if Qltb a b then b else a.
Definition pymin (a b : Q) : Q := if Qltb b a then b else a.

(** [int(q)]: truncation towards zero. *)
Definition Qtrunc (q : Q) : Z := Z.quot (Qnum q) (Zpos (Qden q)).

Definition ofZ (z : Z) : Q := inject_Z z.

Definition eps9 : Q := 1 # 1000000000.
Definition eps12 : Q := 1 # 1000000000000.

(** ** The math library *)

Record MathLib : Type := {
  (** [math.exp]; [None] is its [OverflowError]. *)
  m_exp : Q -> option Q;
  m_tanh : Q -> Q;
  (** [math.sqrt] on a non-negative argument. *)
  m_sqrt : Q -> Q;
  m_exp_nonpos : forall q, (q <= 0)%Q -> exists v, m_exp q = Some v;
  m_sqrt_pos : forall q, (0 < q)%Q -> (0 < m_sqrt q)%Q
}.

(** ** Sequences *)

Definition len {A : Type} (l : list A) : Z := Z.of_nat (List.length l).

(** [l[i]] for an index within range. *)
Definition at_ (l : list Q) (i : Z) : Q := nth (Z.to_nat i) l 0%Q.

(** A slice bound as Python normalises it: a negative bound counts from the
    end, and both are clipped to [0, n]. *)
Definition clip_index (n i : Z) : Z :=
  if i <? 0 then Z.max 0 (n + i) else Z.min i n.

(** [l[lo:hi]] *)
Definition slice {A : Type} (l : list A) (lo hi : Z) : list A :=
  let n := len l in
  let lo' := clip_index n lo in
  let hi' := clip_index n hi in
  firstn (Z.to_nat (hi' - lo')) (skipn (Z.to_nat lo') l).

(** [l[:hi]] and [l[lo:]] *)
Definition slice_to {A : Type} (l : list A) (hi : Z) : list A := slice l 0 hi.
Definition slice_from {A : Type} (l : list A) (lo : Z) : list A := slice l lo (len l).

(** [range(lo, hi)] *)
Definition range (lo hi : Z) : list Z :=
  map (fun i => lo + Z.of_nat i) (seq 0 (Z.to_nat (hi - lo))).

(** [sum(l)] *)
Definition sum (l : list Q) : Q := fold_left Qplus l 0%Q.

(** [sorted(l)]: a stable sort. *)
Fixpoint insert_sorted (x : Q) (l : list Q) : list Q :=
  match l with
  | [] => [x]
  | y :: t => if Qleb x y then x :: y :: t else y :: insert_sorted x t
  end.

Definition sorted (l : list Q) : list Q := fold_right insert_sorted [] l.

(** [min(l)] and [max(l)] of a non-empty list: the first least (greatest)
    element. *)
Definition list_min (l : list Q) : Q :=
  match l with
  | [] => 0%Q
  | x :: t => fold_left pymin t x
  end.

Definition list_max (l : list Q) : Q :=
  match l with
  | [] => 0%Q
  | x :: t => fold_left pymax t x
  end.

(** [l.index(v)]: the position of the first element equal to [v]. *)
Fixpoint index (l : list Q) (v : Q) : Z :=
  match l with
  | [] => 0
  | x :: t => if Qeqb x v then 0 else 1 + index t v
  end.

(** [np.argmin(l)]: the position of the first least element. *)
Fixpoint argmin_from (l : list Q) (i best_i : Z) (best : Q) : Z :=
  match l with
  | [] => best_i
  | x :: t => if Qltb x best then argmin_from t (i + 1) i x
              else argmin_from t (i + 1) best_i best
  end.

Definition np_argmin (l : list Q) : Z :=
  match l with
  | [] => 0
  | x :: t => argmin_from t 1 0 x
  end.

(** ** Robust statistics *)

Section Statistics.

Local Open Scope Q_scope.

(** [np.median(v)]: the middle order statistic, or the mean of the two middle
    ones.  It is [nan] on an empty array; that value is produced only by
    [find_all_dips] on an empty series, which raises before reading it. *)
Definition np_median (v : list Q) : Q :=
  let s := sorted v in
  let n := len s in
  if (n =? 0)%Z then 0
  else if (n mod 2 =? 1)%Z then at_ s (n / 2)
  else (at_ s (n / 2 - 1) + at_ s (n / 2)) / 2.

(** [_median(v)] (lines 67-77); the same remark applies to its [nan]. *)
Definition _median (np : bool) (v : list Q) : Q :=
  if np then np_median v
  else
    let s := sorted v in
    let n := len s in
    if (n =? 0)%Z then 0
    else
      let m := (n / 2)%Z in
      if negb (n mod 2 =? 0)%Z then at_ s m
      else (at_ s (m - 1) + at_ s m) / 2.

(** [_trimmed_mean(values, trim_fraction=0.1)] *)
Definition _trimmed_mean (values : list Q) : Q :=
  if (len values <? 3)%Z then
    match values with
    | [] => 0
    | _ => sum values / ofZ (len values)
    end
  else
    let sorted_vals := sorted values in
    let trim_count := Z.max 1 (len sorted_vals / 10) in
    let trimmed := slice sorted_vals trim_count (- trim_count) in
    match trimmed with
    | [] => sum values / ofZ (len values)
    | _ => sum trimmed / ofZ (len trimmed)
    end.

(** [_mad(v, med)] with an explicit centre (every call passes one). *)
Definition _mad (np : bool) (v : list Q) (med : Q) : Q :=
  if (len v =? 0)%Z then 0
  else if np then np_median (map (fun x => Qabs (x - med)) v)
  else _median np (map (fun x => Qabs (x - med)) v).

(** [np.quantile(v, q)]: linear interpolation between order statistics. *)
Definition np_quantile (v : list Q) (q : Q) : Q :=
  let s := sorted v in
  let h := ofZ (len s - 1) * q in
  let lo := Qfloor h in
  at_ s lo + (h - ofZ lo) * (at_ s (lo + 1) - at_ s lo).

Variable M : MathLib.

(** [np.std(v)]: the population standard deviation. *)
Definition np_std (v : list Q) : Q :=
  let mean := sum v / ofZ (len v) in
  m_sqrt M (sum (map (fun x => (x - mean) * (x - mean)) v) / ofZ (len v)).

(** The scale used when the MAD is zero (lines 521-536). *)
Definition fallback_scale (np : bool) (local_ctx : list Q) : Q :=
  if np then
    let q1 := np_quantile local_ctx (1 # 4) in
    let q3 := np_quantile local_ctx (3 # 4) in
    let iqr := q3 - q1 in
    if Qltb 0 iqr then iqr / (1349 # 1000)
    else
      let std := np_std local_ctx in
      if Qltb 0 std then std / (14826 # 10000) else eps9
  else
    let mean_val := sum local_ctx / ofZ (len local_ctx) in
    let ad := sum (map (fun v => Qabs (v - mean_val)) local_ctx) / ofZ (len local_ctx) in
    if Qeqb ad 0 then eps9 else ad.

End Statistics.

(** ** Metrics records *)

(** The record [detect_dip] builds on lines 634-660; [m_reason] is the
    optional key ["reason"]. *)
Record full_metrics : Type := {
  m_start : Z;
  m_end : Z;
  m_width : Z;
  m_baseline : Q;
  m_local_median : Q;
  m_global_median : Q;
  m_local_mad : Q;
  m_alpha : Q;
  m_seg_min : Q;
  m_seg_min_index : Z;
  m_depth : Q;
  m_depth_threshold : Q;
  m_prominence : Q;
  m_area : Q;
  m_recovered : bool;
  m_is_ongoing : bool;
  m_confidence : Q;
  m_is_dip : bool;
  m_k : Q;
  m_min_abs_depth : Q;
  m_reason : option string
}.

(** The dict [detect_dip] returns: the three-key record of the width gate
    (lines 490-494) or the full record. *)
Inductive metrics : Type :=
| WidthBelowMin (width min_width : Z)
| Metrics (f : full_metrics).

(** Values stored in a metrics dict. *)
Inductive value : Type :=
| VInt (z : Z)
| VFloat (q : Q)
| VBool (b : bool)
| VStr (s : string).

(** The dict's items, in insertion order. *)
Definition items (m : metrics) : list (string * value) :=
  match m with
  | WidthBelowMin width min_width =>
      [ ("reason", VStr "width_below_min");
        ("width", VInt width);
        ("min_width", VInt min_width) ]%string
  | Metrics f =>
      app
       [ ("start", VInt (m_start f));
         ("end", VInt (m_end f));
         ("width", VInt (m_width f));
         ("baseline", VFloat (m_baseline f));
         ("local_median", VFloat (m_local_median f));
         ("global_median", VFloat (m_global_median f));
         ("local_mad", VFloat (m_local_mad f));
         ("alpha", VFloat (m_alpha f));
         ("seg_min", VFloat (m_seg_min f));
         ("seg_min_index", VInt (m_seg_min_index f));
         ("depth", VFloat (m_depth f));
         ("depth_threshold", VFloat (m_depth_threshold f));
         ("prominence", VFloat (m_prominence f));
         ("area", VFloat (m_area f));
         ("recovered", VBool (m_recovered f));
         ("is_ongoing", VBool (m_is_ongoing f));
         ("confidence", VFloat (m_confidence f));
         ("is_dip", VBool (m_is_dip f));
         ("k", VFloat (m_k f));
         ("min_abs_depth", VFloat (m_min_abs_depth f)) ]%string
       match m_reason f with
       | Some r => [ ("reason", VStr r) ]%string
       | None => []
       end
  end.

(** [m[key]]; [None] is Python's [KeyError]. *)
Definition lookup (key : string) (m : metrics) : option value :=
  match find (fun kv => String.eqb (fst kv) key) (items m) with
  | Some kv => Some (snd kv)
  | None => None
  end.

(** The fields of the data model's Candidate record. *)
Definition candidate_fields : list string :=
  [ "start"; "end"; "width"; "baseline"; "local_median"; "global_median";
    "local_mad"; "alpha"; "seg_min"; "seg_min_index"; "depth";
    "depth_threshold"; "prominence"; "area"; "recovered"; "is_ongoing";
    "confidence"; "is_dip"; "k"; "min_abs_depth" ]%string.

(** ** The segment classifier *)

Section Classifier.

Variable M : MathLib.
Variable np : bool.

Local Open Scope Q_scope.

(** [pre] and [post] (lines 497-500). *)
Definition pre_of (x : list Q) (start pre_window : Z) : list Q :=
  slice x (Z.max 0 (start - pre_window)) start.

Definition post_of (x : list Q) (end_ post_window : Z) : list Q :=
  slice x (end_ + 1) (Z.min (len x) (end_ + 1 + post_window)).

(** [is_ongoing] (lines 503 and 545). *)
Definition is_ongoing_of (x : list Q) (end_ post_window : Z) : bool :=
  (len x - 3 <=? end_)%Z || (len (post_of x end_ post_window) =? 0)%Z.

(** [local_ctx] (lines 505-516). *)
Definition local_ctx_of (x : list Q) (start end_ pre_window post_window min_width : Z)
  : list Q :=
  let pre := pre_of x start pre_window in
  let post := post_of x end_ post_window in
  let local_ctx := pre ++ (if is_ongoing_of x end_ post_window then [] else post) in
  let local_ctx :=
    if (len local_ctx <? Z.max 5 min_width)%Z
    then slice_to x start ++ slice_from x (end_ + 1)
    else local_ctx in
  if (len local_ctx <? 3)%Z then x else local_ctx.

(** [local_mad] after the zero fallback (lines 519-536). *)
Definition local_mad_of (local_ctx : list Q) (local_med : Q) : Q :=
  let local_mad := _mad np local_ctx local_med in
  if Qeqb local_mad 0 then fallback_scale M np local_ctx else local_mad.

(** [any(abs(v - baseline) <= eps for v in vs)] *)
Definition any_within (baseline eps : Q) (vs : list Q) : bool :=
  existsb (fun v => Qleb (Qabs (v - baseline)) eps) vs.

(** The body of [if require_recovery and len(post) > 0] (lines 581-614). *)
Definition recovery_check (x post : list Q) (end_ post_window : Z)
    (baseline local_mad depth depth_threshold seg_min : Q) : bool :=
  let recovery_epsilon := (1 # 2) * local_mad in
  let depth_ratio := if Qltb 0 depth_threshold then depth / depth_threshold else 0 in
  if Qltb 3 depth_ratio then
    let extended_post_end := Z.min (len x) (end_ + 1 + post_window * 2) in
    let extended_post := slice x (end_ + 1) extended_post_end in
    let recovered := any_within baseline recovery_epsilon extended_post in
    if negb recovered && Qltb 5 depth_ratio then
      let relaxed_epsilon := local_mad in
      any_within baseline relaxed_epsilon extended_post
    else recovered
  else
    let recovered := any_within baseline recovery_epsilon post in
    if negb recovered && (5 <=? len post)%Z then
      let half := Z.to_nat (len post / 2) in
      let post_first_half := firstn half post in
      let post_second_half := skipn half post in
      if (2 <=? len post_first_half)%Z && (2 <=? len post_second_half)%Z then
        let dist_first :=
          sum (map (fun v => Qabs (v - seg_min)) post_first_half)
          / ofZ (len post_first_half) in
        let dist_second :=
          sum (map (fun v => Qabs (v - seg_min)) post_second_half)
          / ofZ (len post_second_half) in
        let improvement := dist_second - dist_first in
        if Qleb ((3 # 10) * depth) improvement then true else recovered
      else recovered
    else recovered.

(** The confidence score (lines 626-630). *)
Definition confidence_of (depth area prominence local_mad : Q) (width : Z) : Q :=
  let depth_score := depth / (local_mad + eps12) in
  let area_score := area / ((local_mad + eps12) * ofZ width) in
  let prom_score := prominence / (local_mad + eps12) in
  let raw_score := (4 # 10) * depth_score + (3 # 10) * area_score + (3 # 10) * prom_score in
  pymax 0 (pymin 1 (m_tanh M (raw_score / 3) * (12 # 10))).

(** [_trimmed_mean(values)] on a slice of [x], as lines 570-571 call it on
    [pre] and [post].  Without numpy the slice is a list.  With numpy it is an
    array, and for fewer than three elements line 82 asks for its truth value
    ([... if values else 0.0]): an array of two elements has none and numpy
    raises [ValueError]; an array of one element has the truth value of that
    element, and a zero element gives [0.0], which is also the quotient
    [sum(values) / len(values)].  Three elements or more go through [sorted],
    which gives a list.  An empty slice is not passed (lines 570-571 test
    [len(...) > 0] first). *)
Definition _trimmed_mean_of_array (values : list Q) : result Q :=
  if np && (len values =? 2)%Z then Raise ValueError
  else Ok (_trimmed_mean values).

(** [_trimmed_mean(side) if len(side) > 0 else baseline] (lines 570-571). *)
Definition ref_of (side : list Q) (baseline : Q) : result Q :=
  if (0 <? len side)%Z then _trimmed_mean_of_array side else Ok baseline.

(** [alpha = 1 - math.exp(-N / float(n0))] (line 547). *)
Definition alpha_of (N n0 : Z) : result Q :=
  if (n0 =? 0)%Z then Raise ZeroDivisionError
  else
    match m_exp M (- ofZ N / ofZ n0) with
    | Some e => Ok (1 - e)
    | None => Raise OverflowError
    end.

(** [detect_dip(series, start, end, pre_window=..., ..., n0=...)] *)
Definition detect_dip (series : list Q) (start end_ : Z)
    (pre_window post_window min_width : Z) (k min_abs_depth : Q)
    (require_recovery : bool) (n0 : Z) : result (bool * metrics) :=
  if (start <? 0)%Z || (len series <=? end_)%Z || (end_ <? start)%Z
  then Raise ValueError
  else
    let x := series in
    let N := len x in
    let width := (end_ - start + 1)%Z in
    let segment := slice x start (end_ + 1) in
    if (width <? min_width)%Z then Ok (false, WidthBelowMin width min_width)
    else
      let pre := pre_of x start pre_window in
      let post := post_of x end_ post_window in
      let local_ctx := local_ctx_of x start end_ pre_window post_window min_width in
      let local_med := _trimmed_mean local_ctx in
      let local_mad := local_mad_of local_ctx local_med in
      let global_ctx := slice_to x start ++ slice_from x (end_ + 1) in
      let global_ctx := if (len global_ctx =? 0)%Z then x else global_ctx in
      let global_med := _trimmed_mean global_ctx in
      let is_ongoing := is_ongoing_of x end_ post_window in
      alpha <- alpha_of N n0 ;;
      let baseline :=
        if is_ongoing || Qltb global_med local_med
        then pymax local_med global_med
        else alpha * global_med + (1 - alpha) * local_med in
      let seg_min := list_min segment in
      let seg_min_idx_rel := if np then np_argmin segment else index segment seg_min in
      let seg_min_idx := (start + seg_min_idx_rel)%Z in
      let depth := baseline - seg_min in
      let depth_threshold := pymax min_abs_depth (k * local_mad) in
      let passes_depth := Qleb depth_threshold depth in
      left_ref <- ref_of pre baseline ;;
      right_ref <- ref_of post baseline ;;
      let neighbor_ref := (left_ref + right_ref) / 2 in
      let prominence := neighbor_ref - seg_min in
      let recovered :=
        if require_recovery && (0 <? len post)%Z
        then recovery_check x post end_ post_window baseline local_mad depth
               depth_threshold seg_min
        else true in
      let area := sum (map (fun v => baseline - v) segment) in
      let confidence := confidence_of depth area prominence local_mad width in
      let is_dip := passes_depth && recovered in
      let reason :=
        if negb passes_depth then Some "depth_below_threshold"%string
        else if require_recovery && negb recovered then Some "no_recovery"%string
        else None in
      Ok (is_dip,
          Metrics {|
            m_start := start; m_end := end_; m_width := width;
            m_baseline := baseline; m_local_median := local_med;
            m_global_median := global_med; m_local_mad := local_mad;
            m_alpha := alpha; m_seg_min := seg_min;
            m_seg_min_index := seg_min_idx; m_depth := depth;
            m_depth_threshold := depth_threshold; m_prominence := prominence;
            m_area := area; m_recovered := recovered;
            m_is_ongoing := is_ongoing; m_confidence := confidence;
            m_is_dip := is_dip; m_k := k; m_min_abs_depth := min_abs_depth;
            m_reason := reason |}).

End Classifier.

(** ** A computable math library

    Rational approximations of [math.exp], [math.tanh] and [math.sqrt], used
    to evaluate the functions on concrete series.  The general theorems below
    hold for every [MathLib]. *)

Section Approximation.

Local Open Scope Q_scope.

(** [sum_{i <= n} y^i / i!], accumulated from the term [t] of rank [i]. *)
Fixpoint exp_series (n : nat) (y t : Q) (i : Z) : Q :=
  match n with
  | O => t
  | S n' => t + exp_series n' y (Qred (t * y / ofZ (i + 1))) (i + 1)
  end.

Definition approx_exp (q : Q) : option Q :=
  if Qltb 709 q then None
  else if Qleb q 0 then Some (Qred (/ exp_series 12 (- q) 1 0))
  else Some (Qred (exp_series 12 q 1 0)).

Definition approx_tanh (q : Q) : Q :=
  match approx_exp (2 * q) with
  | Some e => Qred (1 - 2 / (e + 1))
  | None => 1
  end.

Definition approx_sqrt (q : Q) : Q :=
  if Qleb q 0 then 0
  else
    Qmake (Z.max 1 (Z.sqrt (Qnum q * 1000000000000000000 / Zpos (Qden q))))
          1000000000.

Lemma approx_exp_nonpos (q : Q) : q <= 0 -> exists v, approx_exp q = Some v.
Proof.
  intros Hq. unfold approx_exp.
  assert (Qltb 709 q = false) as ->.
  { unfold Qltb. apply negb_false_iff. apply Qle_bool_iff. lra. }
  destruct (Qleb q 0); eexists; reflexivity.
Qed.

Lemma approx_sqrt_pos (q : Q) : 0 < q -> 0 < approx_sqrt q.
Proof.
  intros Hq. unfold approx_sqrt.
  assert (Qleb q 0 = false) as ->.
  { unfold Qleb. destruct (Qle_bool q 0) eqn:E; [|reflexivity].
    apply Qle_bool_iff in E. lra. }
  unfold Qlt. cbn [Qnum Qden]. lia.
Qed.

Definition approx_math : MathLib :=
  {| m_exp := approx_exp; m_tanh := approx_tanh; m_sqrt := approx_sqrt;
     m_exp_nonpos := approx_exp_nonpos; m_sqrt_pos := approx_sqrt_pos |}.

End Approximation.

(** ** The local minimum finder *)

(** A minimum: [(index, value, prominence)]. *)
Definition minimum : Type := (Z * Q * Q)%type.

Definition min_index (m : minimum) : Z := fst (fst m).

Section Minima.

Variable x : list Q.

Local Abbreviation N := (len x).
Local Notation "'x' '[' i ']'" := (at_ x i) (at level 0, i at level 200).

(** [if x[k] > acc: acc = x[k]] *)
Definition raise_to (acc : Q) (k : Z) : Q :=
  if Qltb acc x[k] then x[k] else acc.

(** The plateau loop [while j < N - 1 and x[j+1] == x[i]: j += 1]; it runs
    at most [N] times. *)
Fixpoint plateau_end (fuel : nat) (i j : Z) : Z :=
  match fuel with
  | O => j
  | S fuel' =>
      if (j <? N - 1) && Qeqb x[j + 1] x[i]
      then plateau_end fuel' i (j + 1)
      else j
  end.

(** One turn of the main loop at position [i] (lines 124-157): the minimum
    found there, if any, and the next position. *)
Definition scan_step (min_prominence : Q) (proximity_range : Z) (i : Z)
  : option minimum * Z :=
  if Qleb x[i] x[i - 1] && Qleb x[i] x[i + 1] then
    let j := plateau_end (Z.to_nat N) i i in
    let is_min :=
      ((i =? 0) || Qltb x[i] x[i - 1]) && ((j =? N - 1) || Qltb x[i] x[j + 1]) in
    let is_min :=
      if negb is_min && (0 <? i) && (j <? N - 1)
      then Qleb x[i] x[i - 1] && Qleb x[i] x[j + 1]
           && (Qltb x[i] x[i - 1] || Qltb x[i] x[j + 1])
      else is_min in
    (if is_min then
       let min_idx := (i + j) / 2 in
       let left_higher := if 0 <? i then x[i - 1] else x[min_idx] in
       let right_higher := if j <? N - 1 then x[j + 1] else x[min_idx] in
       let left_higher :=
         fold_left raise_to (range (Z.max 0 (i - proximity_range)) i) left_higher in
       let right_higher :=
         fold_left raise_to (range (j + 1) (Z.min N (j + proximity_range + 1)))
                   right_higher in
       let prom := (pymin left_higher right_higher - x[min_idx])%Q in
       if Qleb min_prominence prom then Some (min_idx, x[min_idx], prom) else None
     else None,
     j + 1)
  else (None, i + 1).

(** The main loop [while i < N - 1]; every turn advances [i]. *)
Fixpoint scan (fuel : nat) (min_prominence : Q) (proximity_range : Z) (i : Z)
    (minima : list minimum) : list minimum :=
  match fuel with
  | O => minima
  | S fuel' =>
      if i <? N - 1 then
        let '(found, i') := scan_step min_prominence proximity_range i in
        scan fuel' min_prominence proximity_range i'
             (match found with
              | Some m => minima ++ [m]
              | None => minima
              end)
      else minima
  end.

(** [while j > 0 and x[j] < x[j-1]: j -= 1] *)
Fixpoint descent_start (j : nat) : nat :=
  match j with
  | O => O
  | S j' => if Qltb x[Z.of_nat j] x[Z.of_nat j'] then descent_start j' else j
  end.

(** The tail case (lines 161-186). *)
Definition tail_minimum (min_prominence : Q) (proximity_range : Z)
    (minima : list minimum) : list minimum :=
  if 3 <=? N then
    let last_idx := N - 1 in
    if Qltb x[last_idx] x[last_idx - 1] then
      let j := Z.of_nat (descent_start (Z.to_nat (last_idx - 1))) in
      if 1 <=? last_idx - j then
        let min_idx := last_idx in
        let left_higher := if 0 <? j then x[j] else x[0] in
        let left_higher :=
          fold_left raise_to (range (Z.max 0 (j - proximity_range)) (j + 1))
                    left_higher in
        let prom := (left_higher - x[min_idx])%Q in
        if Qleb min_prominence prom
           && negb (existsb (fun m => min_index m =? min_idx) minima)
        then minima ++ [(min_idx, x[min_idx], prom)]
        else minima
      else minima
    else minima
  else minima.

(** [find_local_minima(series, min_prominence, proximity_range)] *)
Definition find_local_minima (min_prominence : Q) (proximity_range : Z)
  : list minimum :=
  if N <? 3 then []
  else
    tail_minimum min_prominence proximity_range
      (scan (Z.to_nat N) min_prominence proximity_range 1 []).

End Minima.

(** [find_local_minima_scaled] is an alias. *)
Definition find_local_minima_scaled (x : list Q) (min_prominence : Q)
    (proximity_range : Z) : list minimum :=
  find_local_minima x min_prominence proximity_range.

(** ** The boundary expander *)

Section Expander.

Local Open Scope Q_scope.

(** [crossing_level] (lines 219-228); [None] stands for [+inf].

    The quotient [depth / (baseline + 1e-9)] has a zero divisor when
    [baseline] is [-1e-9].  Without numpy the operands are Python floats and
    the division raises.  With numpy [depth] is a float64 scalar and the
    quotient is [inf]: then [threshold_factor * (1 + inf)] is [inf], [nan] or
    [-inf] for a positive, zero or negative [threshold_factor], and
    [min(threshold_factor, .)] keeps [threshold_factor] in the first two cases
    and gives [-inf] in the third, where the level is [+inf]. *)
Definition crossing_level_of (np : bool) (baseline min_val threshold_factor : Q)
  : result (option Q) :=
  let depth := baseline - min_val in
  if Qltb 0 depth then
    if Qeqb (baseline + eps9) 0 then
      if np then
        if Qltb threshold_factor 0 then Ok None
        else Ok (Some (baseline - threshold_factor * depth))
      else Raise ZeroDivisionError
    else
      let adaptive_factor :=
        pymin threshold_factor (threshold_factor * (1 + depth / (baseline + eps9))) in
      Ok (Some (baseline - adaptive_factor * depth))
  else
    let adaptive_factor := threshold_factor in
    Ok (Some (baseline - adaptive_factor * depth)).

(** [v >= crossing_level] *)
Definition reaches (crossing_level : option Q) (v : Q) : bool :=
  match crossing_level with
  | Some c => Qleb c v
  | None => false
  end.

(** [expand_dip_boundaries(series, min_idx, baseline, threshold_factor)] *)
Definition expand_dip_boundaries (np : bool) (x : list Q) (min_idx : Z)
    (baseline threshold_factor : Q) : result (Z * Z) :=
  let N := len x in
  let min_val := at_ x min_idx in
  crossing_level <- crossing_level_of np baseline min_val threshold_factor ;;
  (* for i in range(min_idx - 1, -1, -1): ... break / else *)
  let start :=
    match find (fun i => reaches crossing_level (at_ x i)) (rev (range 0 min_idx)) with
    | Some i => (i + 1)%Z
    | None => 0%Z
    end in
  (* for i in range(min_idx + 1, N): ... break / else *)
  let end_ :=
    match find (fun i => reaches crossing_level (at_ x i)) (range (min_idx + 1) N) with
    | Some i => (i - 1)%Z
    | None => (N - 1)%Z
    end in
  Ok (start, end_).

End Expander.

(** ** The multi-scale discoverer *)

(** A record kept by [find_all_dips]: the classifier's full record with the
    keys added on lines 395-396 and 427-447. *)
Record candidate : Type := {
  c_metrics : full_metrics;
  c_scale_factor : Z;
  c_detection_scale : string;
  c_detected_at_scales : option Z;
  c_scale_list : option (list Z)
}.

Definition c_start (c : candidate) : Z := m_start (c_metrics c).
Definition c_end (c : candidate) : Z := m_end (c_metrics c).
Definition c_depth (c : candidate) : Q := m_depth (c_metrics c).
Definition c_confidence (c : candidate) : Q := m_confidence (c_metrics c).

(** [d['confidence'] = v] *)
Definition set_confidence (c : candidate) (v : Q) : candidate :=
  let f := c_metrics c in
  {| c_metrics :=
       {| m_start := m_start f; m_end := m_end f; m_width := m_width f;
          m_baseline := m_baseline f; m_local_median := m_local_median f;
          m_global_median := m_global_median f; m_local_mad := m_local_mad f;
          m_alpha := m_alpha f; m_seg_min := m_seg_min f;
          m_seg_min_index := m_seg_min_index f; m_depth := m_depth f;
          m_depth_threshold := m_depth_threshold f;
          m_prominence := m_prominence f; m_area := m_area f;
          m_recovered := m_recovered f; m_is_ongoing := m_is_ongoing f;
          m_confidence := v; m_is_dip := m_is_dip f; m_k := m_k f;
          m_min_abs_depth := m_min_abs_depth f; m_reason := m_reason f |};
     c_scale_factor := c_scale_factor c;
     c_detection_scale := c_detection_scale c;
     c_detected_at_scales := c_detected_at_scales c;
     c_scale_list := c_scale_list c |}.

(** [d['detected_at_scales'] = n; d['scale_list'] = l] *)
Definition set_scales (c : candidate) (n : Z) (l : list Z) : candidate :=
  {| c_metrics := c_metrics c;
     c_scale_factor := c_scale_factor c;
     c_detection_scale := c_detection_scale c;
     c_detected_at_scales := Some n;
     c_scale_list := Some l |}.

(** [list.sort(key=...)]: a stable sort; [before a b] says that [a], met
    first, stays ahead of [b]. *)
Fixpoint insert_by {A : Type} (before : A -> A -> bool) (a : A) (l : list A) : list A :=
  match l with
  | [] => [a]
  | b :: t => if before a b then a :: b :: t else b :: insert_by before a t
  end.

Definition sort_by {A : Type} (before : A -> A -> bool) (l : list A) : list A :=
  fold_right (insert_by before) [] l.

(** [sorted(set(l))] on ints. *)
Definition sorted_set (l : list Z) : list Z :=
  sort_by Z.leb (nodup Z.eq_dec l).

(** The scale factors chosen on lines 302-312. *)
Definition select_scale_factors (N : Z) (multi_scale : bool)
    (scale_factors : option (list Z)) : list Z :=
  match multi_scale, scale_factors with
  | true, None =>
      if 200 <? N then [1; 2; 4; 8]
      else if 50 <? N then [1; 2; 4]
      else [1; 2]
  | true, Some given => given
  | false, _ => [1]
  end.

(** The moving median of lines 323-326: [np.pad(x, pad, mode='edge')], which
    raises on an empty array, then the median of each window. *)
Definition moving_median (x : list Q) (effective_smoothing : Z) : result (list Q) :=
  let N := len x in
  let pad := effective_smoothing / 2 in
  if N =? 0 then Raise ValueError
  else
    let x_pad :=
      repeat (at_ x 0) (Z.to_nat pad) ++ x ++ repeat (at_ x (N - 1)) (Z.to_nat pad) in
    Ok (map (fun i => _median true (slice x_pad i (i + effective_smoothing))) (range 0 N)).

(** The context of a minimum (lines 354-375). *)
Definition context_of (x_smooth : list Q) (m : minimum) (pre_window post_window : Z)
  : list Q :=
  let '(min_idx, min_val, prom) := m in
  let N := len x_smooth in
  let context :=
    if N - 2 <=? min_idx then
      let ctx_start := Z.max 0 (min_idx - pre_window * 2) in
      let ctx_end := min_idx in
      let context := slice x_smooth ctx_start ctx_end in
      if 3 <? len context then
        let stable_context :=
          filter (fun v => Qleb (min_val + (1 # 2) * prom) v) (removelast context) in
        if 3 <=? len stable_context then stable_context else context
      else context
    else
      let ctx_start := Z.max 0 (min_idx - pre_window) in
      let ctx_end := Z.min N (min_idx + post_window) in
      slice x_smooth ctx_start min_idx ++ slice x_smooth (min_idx + 1) ctx_end in
  if len context <? 3 then x_smooth else context.

Definition detection_scale_of (scale_factor : Z) : string :=
  if scale_factor =? 1 then "fast"
  else if scale_factor <=? 2 then "medium"
  else "slow".

Section Discoverer.

Variable M : MathLib.
Variable np : bool.

(** [math.sqrt(z)] of an int: a [ValueError] on a negative argument. *)
Definition sqrt_int (z : Z) : result Q :=
  if z <? 0 then Raise ValueError else Ok (m_sqrt M (ofZ z)).

Section PerCall.

Variable series : list Q.
Variables pre_window post_window min_width : Z.
Variables k min_abs_depth : Q.
Variable require_recovery : bool.
Variable n0 : Z.

(** The body of [for min_idx, min_val, prom in minima] (lines 351-397). *)
Definition classify_minimum (x_smooth : list Q) (scale_factor : Z) (m : minimum)
  : result (option candidate) :=
  let context := context_of x_smooth m pre_window post_window in
  let local_baseline := _median np context in
  bounds <- expand_dip_boundaries np x_smooth (min_index m) local_baseline (3 # 10) ;;
  let '(start, end_) := bounds in
  let scale_min_width :=
    Z.max min_width (Qtrunc (ofZ min_width * m_sqrt M (ofZ scale_factor))) in
  verdict <- detect_dip M np series start end_ pre_window post_window
                        scale_min_width k min_abs_depth require_recovery n0 ;;
  match verdict with
  | (true, Metrics f) =>
      Ok (Some {| c_metrics := f;
                  c_scale_factor := scale_factor;
                  c_detection_scale := detection_scale_of scale_factor;
                  c_detected_at_scales := None;
                  c_scale_list := None |})
  | _ => Ok None
  end.

(** The candidates of the minima, in order, after [acc]. *)
Fixpoint classify_minima (x_smooth : list Q) (scale_factor : Z)
    (minima : list minimum) (acc : list candidate) : result (list candidate) :=
  match minima with
  | [] => Ok acc
  | m :: rest =>
      found <- classify_minimum x_smooth scale_factor m ;;
      classify_minima x_smooth scale_factor rest
        (match found with
         | Some c => acc ++ [c]
         | None => acc
         end)
  end.

(** The body of [for scale_factor in scale_factors] (lines 317-397). *)
Definition scan_scale (smoothing_window : Z) (min_prominence_factor : Q)
    (scale_factor : Z) (all_candidates : list candidate)
  : result (list candidate) :=
  let x := series in
  let N := len x in
  let effective_smoothing := Z.max 1 (smoothing_window * scale_factor) in
  x_smooth <-
    (if 1 <? effective_smoothing then
       if np then moving_median x effective_smoothing else Ok x
     else Ok x) ;;
  let global_med := _median np x_smooth in
  let global_mad := _mad np x_smooth global_med in
  global_mad <-
    (if Qeqb global_mad 0 then
       (* max() and min() of an empty sequence raise *)
       if len x_smooth =? 0 then Raise ValueError
       else
         let spread := ((list_max x_smooth - list_min x_smooth) / 6)%Q in
         Ok (if Qeqb spread 0 then eps9 else spread)
     else Ok global_mad) ;;
  root <- sqrt_int scale_factor ;;
  scale_prom_factor <-
    (if Qeqb root 0 then Raise ZeroDivisionError
     else Ok (min_prominence_factor / root)%Q) ;;
  let min_prom := (scale_prom_factor * global_mad)%Q in
  let prominence_range := Z.min (10 * scale_factor) (N / 4) in
  let minima := find_local_minima_scaled x_smooth min_prom prominence_range in
  classify_minima x_smooth scale_factor minima all_candidates.

Fixpoint scan_scales (smoothing_window : Z) (min_prominence_factor : Q)
    (scale_factors : list Z) (all_candidates : list candidate)
  : result (list candidate) :=
  match scale_factors with
  | [] => Ok all_candidates
  | scale_factor :: rest =>
      found <- scan_scale smoothing_window min_prominence_factor scale_factor
                          all_candidates ;;
      scan_scales smoothing_window min_prominence_factor rest found
  end.

End PerCall.

(** Closing a winner (lines 427-432 and 437-441). *)
Definition finalize (current : candidate) (current_scales : list Z) : candidate :=
  let current :=
    set_scales current (len (nodup Z.eq_dec current_scales)) (sorted_set current_scales) in
  if 1 <? len current_scales then
    set_confidence current
      (pymin 1 (c_confidence current
                * (1 + (1 # 10) * ofZ (len current_scales - 1)))%Q)
  else current.

(** The state of the merge sweep: [current], [current_scales], [merged]. *)
Definition sweep : Type := (candidate * list Z * list candidate)%type.

(** One turn of [for next_dip in all_candidates[1:]] (lines 414-434).

    The quotient on line 421 has the divisor [current['depth']].  Without
    numpy it is a Python float and a zero divisor raises; with numpy the
    depth is a float64 scalar, the quotient is [inf] or [nan], and the
    comparison with [0.1] is false. *)
Definition merge_step (st : sweep) (next_dip : candidate) : result sweep :=
  let '(current, current_scales, merged) := st in
  root <- sqrt_int (Z.max (c_scale_factor current) (c_scale_factor next_dip)) ;;
  let gap_tolerance := Z.max 2 (Qtrunc (2 * root)) in
  if c_start next_dip <=? c_end current + gap_tolerance then
    if Qltb (c_depth current * (11 # 10)) (c_depth next_dip) then
      Ok (next_dip, [c_scale_factor next_dip], merged)
    else if Qeqb (c_depth current) 0 then
      if np then Ok (current, current_scales, merged)
      else Raise ZeroDivisionError
    else if Qltb (Qabs (c_depth next_dip - c_depth current) / c_depth current) (1 # 10)
    then Ok (current, current_scales ++ [c_scale_factor next_dip], merged)
    else Ok (current, current_scales, merged)
  else
    Ok (next_dip, [c_scale_factor next_dip], merged ++ [finalize current current_scales]).

Fixpoint merge_sweep (st : sweep) (rest : list candidate) : result sweep :=
  match rest with
  | [] => Ok st
  | next_dip :: rest' =>
      st' <- merge_step st next_dip ;;
      merge_sweep st' rest'
  end.

(** Lines 407-447. *)
Definition merge_candidates (all_candidates : list candidate)
  : result (list candidate) :=
  match all_candidates with
  | [] => Ok []
  | [only] => Ok [set_scales only 1 [c_scale_factor only]]
  | _ =>
      match sort_by (fun a b => c_start a <=? c_start b) all_candidates with
      | [] => Ok []
      | first :: rest =>
          st <- merge_sweep (first, [c_scale_factor first], []) rest ;;
          let '(current, current_scales, merged) := st in
          Ok (merged ++ [finalize current current_scales])
      end
  end.

(** [find_all_dips(series, smoothing_window=..., ..., scale_factors=...)] *)
Definition find_all_dips (series : list Q) (smoothing_window : Z)
    (min_prominence_factor : Q) (pre_window post_window : option Z)
    (min_width : Z) (k min_abs_depth : Q) (require_recovery : bool)
    (n0 max_dips : Z) (multi_scale : bool) (scale_factors : option (list Z))
  : result (list candidate) :=
  let N := len series in
  if N <? min_width then Ok []
  else
    let auto_window := Z.max min_width (Z.min 50 (N / 4)) in
    let pre_window := match pre_window with Some w => w | None => auto_window end in
    let post_window := match post_window with Some w => w | None => auto_window end in
    let scale_factors := select_scale_factors N multi_scale scale_factors in
    all_candidates <-
      scan_scales series pre_window post_window min_width k min_abs_depth
                  require_recovery n0 smoothing_window min_prominence_factor
                  scale_factors [] ;;
    match all_candidates with
    | [] => Ok []
    | _ =>
        all_candidates <- merge_candidates all_candidates ;;
        let all_candidates :=
          sort_by (fun a b => Qleb (c_confidence b) (c_confidence a)) all_candidates in
        Ok (slice_to all_candidates max_dips)
    end.

End Discoverer.

(** * Properties *)

(** ** Comparisons and clamping *)

Lemma Qleb_true (a b : Q) : Qleb a b = true <-> (a <= b)%Q.
Proof. unfold Qleb. apply Qle_bool_iff. Qed.

Lemma Qleb_false (a b : Q) : Qleb a b = false <-> (b < a)%Q.
Proof.
  unfold Qleb. split; intros H.
  - apply Qnot_le_lt. intros Hle. apply Qle_bool_iff in Hle. congruence.
  - destruct (Qle_bool a b) eqn:E; [|reflexivity].
    apply Qle_bool_iff in E. apply Qle_not_lt in E. contradiction.
Qed.

Lemma Qltb_true (a b : Q) : Qltb a b = true <-> (a < b)%Q.
Proof. unfold Qltb. rewrite negb_true_iff. apply Qleb_false. Qed.

Lemma Qltb_false (a b : Q) : Qltb a b = false <-> (b <= a)%Q.
Proof. unfold Qltb. rewrite negb_false_iff. apply Qleb_true. Qed.

Lemma Qeqb_true (a b : Q) : Qeqb a b = true <-> (a == b)%Q.
Proof. unfold Qeqb. apply Qeq_bool_iff. Qed.

Lemma Qeqb_false (a b : Q) : Qeqb a b = false <-> ~ (a == b)%Q.
Proof.
  unfold Qeqb. split; intros H.
  - intros E. apply Qeq_bool_iff in E. congruence.
  - destruct (Qeq_bool a b) eqn:E; [|reflexivity].
    apply Qeq_bool_iff in E. contradiction.
Qed.

Lemma pymax_cases (a b : Q) :
  (pymax a b = b /\ (a < b)%Q) \/ (pymax a b = a /\ (b <= a)%Q).
Proof.
  unfold pymax. destruct (Qltb a b) eqn:E.
  - left. split; [reflexivity | now apply Qltb_true].
  - right. split; [reflexivity | now apply Qltb_false].
Qed.

Lemma pymin_cases (a b : Q) :
  (pymin a b = b /\ (b < a)%Q) \/ (pymin a b = a /\ (a <= b)%Q).
Proof.
  unfold pymin. destruct (Qltb b a) eqn:E.
  - left. split; [reflexivity | now apply Qltb_true].
  - right. split; [reflexivity | now apply Qltb_false].
Qed.

(** [max(0.0, min(1.0, v))] lies in [0, 1] whatever [v] is. *)
Lemma clamp_unit (v : Q) : (0 <= pymax 0 (pymin 1 v) <= 1)%Q.
Proof.
  destruct (pymax_cases 0 (pymin 1 v)) as [[-> H] | [-> H]];
    destruct (pymin_cases 1 v) as [[E H'] | [E H']];
    rewrite ?E in *; lra.
Qed.

(** [min(1.0, c * f)] stays in [0, 1] for [c >= 0] and [f >= 0]. *)
Lemma boost_unit (c f : Q) : (0 <= c)%Q -> (0 <= f)%Q -> (0 <= pymin 1 (c * f) <= 1)%Q.
Proof.
  intros Hc Hf.
  assert (0 <= c * f)%Q by (apply Qmult_le_0_compat; assumption).
  destruct (pymin_cases 1 (c * f)) as [[-> H'] | [-> H']]; lra.
Qed.

Lemma pymax_mono_r (a b c : Q) : (b <= c)%Q -> (pymax a b <= pymax a c)%Q.
Proof.
  intros H.
  destruct (pymax_cases a b) as [[-> ?] | [-> ?]];
    destruct (pymax_cases a c) as [[-> ?] | [-> ?]]; lra.
Qed.

(** ** The classifier, case by case *)

Section ClassifierFacts.

Variable M : MathLib.
Variable np : bool.

Variable series : list Q.
Variables start end_ pre_window post_window min_width : Z.
Variables k min_abs_depth : Q.
Variable require_recovery : bool.
Variable n0 : Z.

Local Abbreviation call :=
  (detect_dip M np series start end_ pre_window post_window min_width k
              min_abs_depth require_recovery n0).

(** The bounds precondition of line 479. *)
Definition valid_bounds (N s e : Z) : Prop := 0 <= s /\ s <= e /\ e < N.

Lemma bounds_test_false :
  valid_bounds (len series) start end_ <->
  (start <? 0) || (len series <=? end_) || (end_ <? start) = false.
Proof.
  unfold valid_bounds. rewrite !orb_false_iff, !Z.ltb_ge, Z.leb_gt. lia.
Qed.

Lemma detect_dip_invalid :
  ~ valid_bounds (len series) start end_ -> call = Raise ValueError.
Proof.
  intros H. unfold detect_dip.
  destruct ((start <? 0) || (len series <=? end_) || (end_ <? start)) eqn:E;
    [reflexivity|].
  apply bounds_test_false in E. contradiction.
Qed.

Lemma detect_dip_gate :
  valid_bounds (len series) start end_ ->
  end_ - start + 1 < min_width ->
  call = Ok (false, WidthBelowMin (end_ - start + 1) min_width).
Proof.
  intros H Hw. unfold detect_dip.
  apply bounds_test_false in H. rewrite H.
  apply Z.ltb_lt in Hw. cbv zeta. rewrite Hw. reflexivity.
Qed.

(** With numpy, a context side of exactly two samples: the array that
    line 82 cannot test. *)
Definition two_samples (side : list Q) : bool := np && (len side =? 2).

(** One of the two sides handed to [_trimmed_mean] on lines 570-571 is such
    an array. *)
Definition ambiguous_side : bool :=
  two_samples (pre_of series start pre_window)
  || two_samples (post_of series end_ post_window).

Lemma ref_of_ok (side : list Q) (baseline : Q) :
  two_samples side = false ->
  ref_of np side baseline
  = Ok (if 0 <? len side then _trimmed_mean side else baseline).
Proof.
  unfold two_samples, ref_of, _trimmed_mean_of_array. intros ->.
  now destruct (0 <? len side).
Qed.

Lemma ref_of_raises (side : list Q) (baseline : Q) :
  two_samples side = true -> ref_of np side baseline = Raise ValueError.
Proof.
  unfold two_samples, ref_of, _trimmed_mean_of_array. intros H. rewrite H.
  apply andb_true_iff in H. destruct H as [_ H]. apply Z.eqb_eq in H.
  rewrite H. reflexivity.
Qed.

Lemma ref_of_value (side : list Q) (baseline r : Q) :
  ref_of np side baseline = Ok r ->
  r = if 0 <? len side then _trimmed_mean side else baseline.
Proof.
  unfold ref_of, _trimmed_mean_of_array. destruct (0 <? len side).
  - destruct (np && (len side =? 2)); [discriminate|]. now intros [= <-].
  - now intros [= <-].
Qed.

(** Past the gate two steps can raise: [alpha], and after it the reference
    level of a two-sample side under numpy. *)
Lemma detect_dip_full :
  valid_bounds (len series) start end_ ->
  min_width <= end_ - start + 1 ->
  (exists e, alpha_of M (len series) n0 = Raise e /\ call = Raise e) \/
  (exists alpha,
      alpha_of M (len series) n0 = Ok alpha /\ ambiguous_side = true
      /\ call = Raise ValueError) \/
  (exists alpha b f,
      alpha_of M (len series) n0 = Ok alpha /\ ambiguous_side = false
      /\ call = Ok (b, Metrics f)).
Proof.
  intros H Hw. unfold detect_dip, ambiguous_side.
  apply bounds_test_false in H. rewrite H.
  apply Z.ltb_ge in Hw. cbv zeta. rewrite Hw.
  destruct (alpha_of M (len series) n0) as [alpha | e];
    [|left; exists e; split; reflexivity].
  right. cbn [bind].
  destruct (two_samples (pre_of series start pre_window)) eqn:Epre.
  { left. exists alpha. split; [reflexivity|]. split; [reflexivity|].
    now rewrite (ref_of_raises _ _ Epre). }
  rewrite (ref_of_ok _ _ Epre). cbn [bind orb].
  destruct (two_samples (post_of series end_ post_window)) eqn:Epost.
  { left. exists alpha. split; [reflexivity|]. split; [reflexivity|].
    now rewrite (ref_of_raises _ _ Epost). }
  rewrite (ref_of_ok _ _ Epost). cbn [bind].
  right. exists alpha. eexists. eexists.
  split; [reflexivity|]. split; reflexivity.
Qed.

Lemma alpha_of_raises (N : Z) (e : exn) :
  alpha_of M N n0 = Raise e -> e <> ValueError /\ (0 <= N -> n0 <= 0).
Proof.
  unfold alpha_of. destruct (n0 =? 0) eqn:E0.
  - intros [= <-]. split; [discriminate|]. apply Z.eqb_eq in E0. lia.
  - destruct (m_exp M (- ofZ N / ofZ n0)) eqn:Ee; [discriminate|].
    intros [= <-]. split; [discriminate|]. intros HN.
    destruct (Z_le_gt_dec n0 0) as [|Hpos]; [assumption|]. exfalso.
    destruct (m_exp_nonpos M (- ofZ N / ofZ n0)) as [v Hv]; [|congruence].
    unfold ofZ. unfold Qdiv.
    assert (0 <= inject_Z N)%Q by (unfold Qle; simpl; lia).
    assert (0 < inject_Z n0)%Q by (unfold Qlt; simpl; lia).
    assert (0 < / inject_Z n0)%Q by (apply Qinv_lt_0_compat; assumption).
    setoid_replace (- inject_Z N * / inject_Z n0)%Q
      with (- (inject_Z N * / inject_Z n0))%Q by ring.
    assert (0 <= inject_Z N * / inject_Z n0)%Q
      by (apply Qmult_le_0_compat; lra).
    lra.
Qed.

Lemma alpha_of_defined (N : Z) :
  0 <= N -> 0 < n0 -> exists alpha, alpha_of M N n0 = Ok alpha.
Proof.
  intros HN Hn. destruct (alpha_of M N n0) as [a | e] eqn:E.
  - now exists a.
  - apply alpha_of_raises in E. lia.
Qed.

(** What a returned full record holds. *)
Lemma detect_dip_fields (b : bool) (f : full_metrics) :
  call = Ok (b, Metrics f) ->
  let post := post_of series end_ post_window in
  let local_ctx := local_ctx_of series start end_ pre_window post_window min_width in
  valid_bounds (len series) start end_ /\
  min_width <= end_ - start + 1 /\
  m_start f = start /\ m_end f = end_ /\ m_width f = end_ - start + 1 /\
  m_is_dip f = b /\
  m_depth f = (m_baseline f - m_seg_min f)%Q /\
  m_local_mad f = local_mad_of M np local_ctx (_trimmed_mean local_ctx) /\
  m_depth_threshold f = pymax min_abs_depth (k * m_local_mad f) /\
  m_is_ongoing f = is_ongoing_of series end_ post_window /\
  m_recovered f =
    (if require_recovery && (0 <? len post)
     then recovery_check series post end_ post_window (m_baseline f)
            (m_local_mad f) (m_depth f) (m_depth_threshold f) (m_seg_min f)
     else true) /\
  b = Qleb (m_depth_threshold f) (m_depth f) && m_recovered f /\
  m_confidence f =
    confidence_of M (m_depth f) (m_area f) (m_prominence f) (m_local_mad f)
                  (m_width f) /\
  m_k f = k /\ m_min_abs_depth f = min_abs_depth.
Proof.
  unfold detect_dip.
  destruct ((start <? 0) || (len series <=? end_) || (end_ <? start)) eqn:E;
    [discriminate|].
  apply bounds_test_false in E. cbv zeta.
  destruct (end_ - start + 1 <? min_width) eqn:Ew; [discriminate|].
  apply Z.ltb_ge in Ew.
  destruct (alpha_of M (len series) n0) as [alpha | e]; [|discriminate].
  cbn [bind].
  destruct (ref_of np _ _) as [left_ref | e]; [|discriminate]. cbn [bind].
  destruct (ref_of np _ _) as [right_ref | e]; [|discriminate]. cbn [bind].
  intros [= <- <-]. cbn.
  repeat split; try reflexivity; try apply E; assumption.
Qed.

(** With [n0 > 0] a call past the gate returns a full record, unless numpy
    is given a two-sample side. *)
Lemma detect_dip_returns :
  valid_bounds (len series) start end_ ->
  min_width <= end_ - start + 1 ->
  0 < n0 ->
  ambiguous_side = false ->
  exists b f, call = Ok (b, Metrics f).
Proof.
  intros Hb Hw Hn Hs.
  destruct (detect_dip_full Hb Hw)
    as [[e [Ha _]] | [[alpha [_ [Ht _]]] | [alpha [b [f [_ [_ Hf]]]]]]].
  - apply alpha_of_raises in Ha. destruct Ha as [_ Ha]. unfold len in Ha. lia.
  - congruence.
  - now exists b, f.
Qed.

End ClassifierFacts.

(** ** The robust scale is positive *)

Lemma insert_sorted_In (a x : Q) (l : list Q) :
  In a (insert_sorted x l) -> a = x \/ In a l.
Proof.
  induction l as [|y t IH]; cbn.
  - intros [<- | []]. now left.
  - destruct (Qleb x y); cbn.
    + intros [<- | H]; [now left | now right].
    + intros [<- | H]; [right; now left|].
      destruct (IH H) as [-> | H']; [now left | right; now right].
Qed.

Lemma sorted_In (a : Q) (l : list Q) : In a (sorted l) -> In a l.
Proof.
  unfold sorted. induction l as [|x t IH]; cbn; [trivial|].
  intros H. apply insert_sorted_In in H. destruct H as [-> | H]; auto.
Qed.

Lemma insert_sorted_length (x : Q) (l : list Q) :
  List.length (insert_sorted x l) = S (List.length l).
Proof.
  induction l as [|y t IH]; cbn; [reflexivity|].
  destruct (Qleb x y); cbn; [reflexivity | now rewrite IH].
Qed.

Lemma sorted_length (l : list Q) : List.length (sorted l) = List.length l.
Proof.
  unfold sorted. induction l as [|x t IH]; cbn; [reflexivity|].
  now rewrite insert_sorted_length, IH.
Qed.

Definition nonneg (q : Q) : Prop := (0 <= q)%Q.

Lemma at_nonneg (l : list Q) (i : Z) : Forall nonneg l -> (0 <= at_ l i)%Q.
Proof.
  intros H. unfold at_.
  destruct (nth_in_or_default (Z.to_nat i) l 0%Q) as [Hin | ->]; [|lra].
  rewrite Forall_forall in H. now apply H.
Qed.

Lemma sorted_nonneg (l : list Q) : Forall nonneg l -> Forall nonneg (sorted l).
Proof.
  rewrite !Forall_forall. intros H a Ha. apply H. now apply sorted_In.
Qed.

Lemma half_sum_nonneg (a b : Q) : (0 <= a)%Q -> (0 <= b)%Q -> (0 <= (a + b) / 2)%Q.
Proof.
  intros Ha Hb. unfold Qdiv. apply Qmult_le_0_compat; [lra|].
  apply Qlt_le_weak, Qinv_lt_0_compat. lra.
Qed.

Lemma np_median_nonneg (l : list Q) : Forall nonneg l -> (0 <= np_median l)%Q.
Proof.
  intros H. apply sorted_nonneg in H. unfold np_median.
  destruct (len (sorted l) =? 0); [lra|].
  destruct (len (sorted l) mod 2 =? 1).
  - now apply at_nonneg.
  - apply half_sum_nonneg; now apply at_nonneg.
Qed.

Lemma _median_nonneg (np : bool) (l : list Q) :
  Forall nonneg l -> (0 <= _median np l)%Q.
Proof.
  intros H. unfold _median. destruct np; [now apply np_median_nonneg|].
  apply sorted_nonneg in H. cbv zeta.
  destruct (len (sorted l) =? 0); [lra|].
  destruct (negb (len (sorted l) mod 2 =? 0)).
  - now apply at_nonneg.
  - apply half_sum_nonneg; now apply at_nonneg.
Qed.

Lemma abs_dev_nonneg (c : Q) (l : list Q) :
  Forall nonneg (map (fun x => Qabs (x - c)) l).
Proof.
  apply Forall_forall. intros a Ha. apply in_map_iff in Ha.
  destruct Ha as [x [<- _]]. apply Qabs_nonneg.
Qed.

Lemma _mad_nonneg (np : bool) (v : list Q) (med : Q) : (0 <= _mad np v med)%Q.
Proof.
  unfold _mad. destruct (len v =? 0); [lra|].
  destruct np.
  - apply np_median_nonneg, abs_dev_nonneg.
  - apply _median_nonneg, abs_dev_nonneg.
Qed.

Lemma fold_sum_nonneg (l : list Q) (acc : Q) :
  Forall nonneg l -> (0 <= acc)%Q -> (0 <= fold_left Qplus l acc)%Q.
Proof.
  revert acc. induction l as [|x t IH]; cbn; intros acc H Hacc; [assumption|].
  inversion H; subst. apply IH; [assumption|]. unfold nonneg in *. lra.
Qed.

Lemma sum_nonneg (l : list Q) : Forall nonneg l -> (0 <= sum l)%Q.
Proof. intros H. apply fold_sum_nonneg; [assumption | lra]. Qed.

Lemma ofZ_len_nonneg {A : Type} (l : list A) : (0 <= ofZ (len l))%Q.
Proof. unfold ofZ, len, Qle. simpl. lia. Qed.

Lemma Qdiv_nonneg (a b : Q) : (0 <= a)%Q -> (0 <= b)%Q -> (0 <= a / b)%Q.
Proof.
  intros Ha Hb. unfold Qdiv. apply Qmult_le_0_compat; [assumption|].
  apply Qinv_le_0_compat. assumption.
Qed.

Lemma Qdiv_pos (a b : Q) : (0 < a)%Q -> (0 < b)%Q -> (0 < a / b)%Q.
Proof.
  intros Ha Hb. unfold Qdiv. apply Qmult_lt_0_compat; [assumption|].
  apply Qinv_lt_0_compat. assumption.
Qed.

Lemma fallback_scale_pos (M : MathLib) (np : bool) (ctx : list Q) :
  (0 < fallback_scale M np ctx)%Q.
Proof.
  unfold fallback_scale. destruct np; cbv zeta.
  - destruct (Qltb 0 _) eqn:E1.
    + apply Qltb_true in E1. apply Qdiv_pos; [assumption | reflexivity].
    + destruct (Qltb 0 (np_std M ctx)) eqn:E2.
      * apply Qltb_true in E2. apply Qdiv_pos; [assumption | reflexivity].
      * reflexivity.
  - destruct (Qeqb _ 0) eqn:E; [reflexivity|].
    apply Qeqb_false in E.
    match goal with |- (0 < ?ad)%Q => assert (0 <= ad)%Q as Hge end.
    { apply Qdiv_nonneg; [apply sum_nonneg, abs_dev_nonneg | apply ofZ_len_nonneg]. }
    apply Qle_lt_or_eq in Hge. destruct Hge as [Hlt | Heq]; [assumption|].
    exfalso. apply E. symmetry. assumption.
Qed.

(** [local_mad] is strictly positive after the fallback chain. *)
Lemma local_mad_of_pos (M : MathLib) (np : bool) (ctx : list Q) (med : Q) :
  (0 < local_mad_of M np ctx med)%Q.
Proof.
  unfold local_mad_of. cbv zeta.
  destruct (Qeqb (_mad np ctx med) 0) eqn:E.
  - apply fallback_scale_pos.
  - apply Qeqb_false in E. pose proof (_mad_nonneg np ctx med) as Hge.
    apply Qle_lt_or_eq in Hge. destruct Hge as [Hlt | Heq]; [assumption|].
    exfalso. apply E. symmetry. assumption.
Qed.

(** ** Claims about [detect_dip] *)

(** The defaults of the signature on lines 454-461. *)
Definition detect_dip_defaults (M : MathLib) (np : bool) (series : list Q)
    (start end_ : Z) : result (bool * metrics) :=
  detect_dip M np series start end_ 50 50 2 (1 # 4) 0 true 200.

(** C1, as stated, fails: for the valid one-sample segment [1, 1] of
    [1, 2, 3] and the default [min_width = 2] the record returned is the
    three-key record of the width gate, which has no ["depth"], ["baseline"]
    or ["seg_min"]. *)
Lemma C1_gated_record_lacks_depth :
  detect_dip_defaults approx_math true [1; 2; 3]%Q 1 1
    = Ok (false, WidthBelowMin 1 2)
  /\ lookup "depth" (WidthBelowMin 1 2) = None
  /\ lookup "baseline" (WidthBelowMin 1 2) = None
  /\ lookup "seg_min" (WidthBelowMin 1 2) = None.
Proof. repeat split; vm_compute; reflexivity. Qed.

(** C1 (amended): for every call of [detect_dip] that returns on a segment
    passing the width gate ([width >= min_width]), the record is the full
    one, its [depth] is [baseline - seg_min], and a true verdict implies
    [depth >= depth_threshold]. *)
Theorem C1_depth_invariants (M : MathLib) (np : bool) (series : list Q)
    (start end_ pre_window post_window min_width : Z) (k min_abs_depth : Q)
    (require_recovery : bool) (n0 : Z) (b : bool) (m : metrics) :
  detect_dip M np series start end_ pre_window post_window min_width k
             min_abs_depth require_recovery n0 = Ok (b, m) ->
  min_width <= end_ - start + 1 ->
  exists f,
    m = Metrics f
    /\ lookup "depth" m = Some (VFloat (m_depth f))
    /\ lookup "baseline" m = Some (VFloat (m_baseline f))
    /\ lookup "seg_min" m = Some (VFloat (m_seg_min f))
    /\ lookup "depth_threshold" m = Some (VFloat (m_depth_threshold f))
    /\ m_depth f = (m_baseline f - m_seg_min f)%Q
    /\ (b = true -> (m_depth_threshold f <= m_depth f)%Q).
Proof.
  intros Hcall Hw.
  destruct m as [w mw | f].
  - exfalso.
    destruct (Z_lt_ge_dec (end_ - start + 1) min_width) as [Hlt | _]; [lia|].
    assert (valid_bounds (len series) start end_) as Hb.
    { apply bounds_test_false. unfold detect_dip in Hcall.
      destruct ((start <? 0) || (len series <=? end_) || (end_ <? start));
        [discriminate | reflexivity]. }
    destruct (detect_dip_full M np series start end_ pre_window post_window
                min_width k min_abs_depth require_recovery n0 Hb Hw)
      as [[e [_ He]] | [[alpha [_ [_ He]]] | [alpha [b' [f [_ [_ Hf]]]]]]];
      congruence.
  - exists f. apply detect_dip_fields in Hcall. cbv zeta in Hcall.
    destruct Hcall as (_ & _ & _ & _ & _ & _ & Hd & _ & _ & _ & _ & Hv & _).
    repeat split; try reflexivity; [assumption|].
    intros ->. symmetry in Hv. apply andb_true_iff in Hv.
    destruct Hv as [Hv _]. now apply Qleb_true.
Qed.

(** The hypotheses of C1 hold for Scenario A of the specification. *)
Lemma C1_depth_invariants_witness :
  match detect_dip_defaults approx_math true
          [5; 5; 4; 3; 5 # 2; 3; 4; 5; 5]%Q 3 4 with
  | Ok (b, m) =>
      exists f,
        m = Metrics f
        /\ lookup "depth" m = Some (VFloat (m_depth f))
        /\ lookup "baseline" m = Some (VFloat (m_baseline f))
        /\ lookup "seg_min" m = Some (VFloat (m_seg_min f))
        /\ lookup "depth_threshold" m = Some (VFloat (m_depth_threshold f))
        /\ m_depth f = (m_baseline f - m_seg_min f)%Q
        /\ (b = true -> (m_depth_threshold f <= m_depth f)%Q)
  | Raise _ => False
  end.
Proof.
  unfold detect_dip_defaults.
  destruct (detect_dip_returns approx_math true
              [5; 5; 4; 3; 5 # 2; 3; 4; 5; 5]%Q 3 4 50 50 2 (1 # 4) 0 true 200)
    as (b & f & E).
  - unfold valid_bounds, len. cbn. lia.
  - lia.
  - lia.
  - reflexivity.
  - rewrite E.
    apply (C1_depth_invariants approx_math true _ 3 4 50 50 2 (1 # 4) 0 true
             200 b (Metrics f) E).
    lia.
Defined.

(** With [n0 = 0] a call with valid bounds that passes the width gate raises
    [ZeroDivisionError] on line 547: nothing validates the option. *)
Lemma detect_dip_zero_n0_raises :
  detect_dip approx_math true [1; 2; 3]%Q 0 1 50 50 2 (1 # 4) 0 true 0
    = Raise ZeroDivisionError
  /\ detect_dip approx_math false [1; 2; 3]%Q 0 1 50 50 2 (1 # 4) 0 true 0
    = Raise ZeroDivisionError.
Proof. split; vm_compute; reflexivity. Qed.

(** When [detect_dip] raises [ValueError], and when it returns: the error is
    raised for bounds that are not valid (line 480) and, with numpy, for a
    valid segment past the width gate with a two-sample side (line 82, once
    [alpha] is computed); the call returns when the bounds are valid and
    either the gate stops it, or [n0 > 0] and no side is such an array. *)
Lemma detect_dip_value_error (M : MathLib) (np : bool) (series : list Q)
    (start end_ pre_window post_window min_width : Z) (k min_abs_depth : Q)
    (require_recovery : bool) (n0 : Z) :
  (detect_dip M np series start end_ pre_window post_window min_width k
              min_abs_depth require_recovery n0 = Raise ValueError
   <-> (start < 0 \/ len series <= end_ \/ end_ < start)
       \/ (valid_bounds (len series) start end_
           /\ min_width <= end_ - start + 1
           /\ (exists alpha, alpha_of M (len series) n0 = Ok alpha)
           /\ ambiguous_side np series start end_ pre_window post_window = true))
  /\ (valid_bounds (len series) start end_ ->
      end_ - start + 1 < min_width
      \/ (0 < n0
          /\ ambiguous_side np series start end_ pre_window post_window = false) ->
      exists b m,
        detect_dip M np series start end_ pre_window post_window min_width k
                   min_abs_depth require_recovery n0 = Ok (b, m)).
Proof.
  assert (valid_bounds (len series) start end_ \/
          (start < 0 \/ len series <= end_ \/ end_ < start)) as Hdec
    by (unfold valid_bounds; lia).
  split; [split|].
  - intros Hraise. destruct Hdec as [Hb | Hbad]; [|now left]. right.
    destruct (Z_lt_ge_dec (end_ - start + 1) min_width) as [Hlt | Hge].
    { rewrite (detect_dip_gate M np series start end_ pre_window post_window
                 min_width k min_abs_depth require_recovery n0 Hb Hlt) in Hraise.
      discriminate. }
    apply Z.ge_le in Hge.
    destruct (detect_dip_full M np series start end_ pre_window post_window
                min_width k min_abs_depth require_recovery n0 Hb Hge)
      as [[e [Ha He]] | [[alpha [Ha [Hs _]]] | [alpha [b [f [_ [_ Hf]]]]]]].
    + apply alpha_of_raises in Ha. destruct Ha as [Hne _]. congruence.
    + repeat split; try apply Hb; try assumption. now exists alpha.
    + congruence.
  - intros [Hbad | (Hb & Hge & [alpha Ha] & Hs)].
    + apply detect_dip_invalid. unfold valid_bounds. lia.
    + destruct (detect_dip_full M np series start end_ pre_window post_window
                  min_width k min_abs_depth require_recovery n0 Hb Hge)
        as [[e [Ha' _]] | [[alpha' [_ [_ He]]] | [alpha' [b [f [_ [Hs' _]]]]]]];
        congruence.
  - intros Hb [Hlt | [Hn Hs]].
    + rewrite (detect_dip_gate M np series start end_ pre_window post_window
                 min_width k min_abs_depth require_recovery n0 Hb Hlt).
      eexists. eexists. reflexivity.
    + destruct (Z_lt_ge_dec (end_ - start + 1) min_width) as [Hlt | Hge].
      { rewrite (detect_dip_gate M np series start end_ pre_window post_window
                   min_width k min_abs_depth require_recovery n0 Hb Hlt).
        eexists. eexists. reflexivity. }
      apply Z.ge_le in Hge.
      destruct (detect_dip_returns M np series start end_ pre_window post_window
                  min_width k min_abs_depth require_recovery n0 Hb Hge Hn Hs)
        as (b & f & E).
      exists b, (Metrics f). exact E.
Qed.

(** C3: the segment [3, 4] of [5, 5, 5, 3, 3, 5, 5] has valid bounds, passes
    the width gate and is called with the default options, and two samples
    follow it.  With numpy [post] is an array of two elements, line 571 hands
    it to [_trimmed_mean], and line 82 raises [ValueError]: the
    invalid-argument error for a valid argument.  Without numpy the same call
    returns a full record.  This holds for any math library. *)
Theorem C3_two_sample_side_raises (M : MathLib) :
  valid_bounds (len [5; 5; 5; 3; 3; 5; 5]%Q) 3 4
  /\ post_of [5; 5; 5; 3; 3; 5; 5]%Q 4 50 = [5; 5]%Q
  /\ detect_dip_defaults M true [5; 5; 5; 3; 3; 5; 5]%Q 3 4 = Raise ValueError
  /\ exists b f,
      detect_dip_defaults M false [5; 5; 5; 3; 3; 5; 5]%Q 3 4
        = Ok (b, Metrics f).
Proof.
  assert (valid_bounds (len [5; 5; 5; 3; 3; 5; 5]%Q) 3 4) as Hb
    by (unfold valid_bounds, len; cbn; lia).
  split; [exact Hb|]. split; [reflexivity|]. unfold detect_dip_defaults. split.
  - apply (detect_dip_value_error M true [5; 5; 5; 3; 3; 5; 5]%Q 3 4 50 50 2
             (1 # 4) 0 true 200).
    right. split; [exact Hb|]. split; [lia|]. split; [|reflexivity].
    apply alpha_of_defined; [unfold len; cbn; lia | lia].
  - apply (detect_dip_returns M false [5; 5; 5; 3; 3; 5; 5]%Q 3 4 50 50 2
             (1 # 4) 0 true 200 Hb); [lia | lia | reflexivity].
Qed.

(** C8, as stated, fails: a call that passes the bounds precondition and
    fails the width gate returns a record with the keys ["reason"],
    ["width"] and ["min_width"] only. *)
Lemma C8_gated_record_keys :
  detect_dip_defaults approx_math true [5; 5; 4; 3; 4; 5; 5]%Q 3 3
    = Ok (false, WidthBelowMin 1 2)
  /\ map fst (items (WidthBelowMin 1 2)) = ["reason"; "width"; "min_width"]%string
  /\ lookup "confidence" (WidthBelowMin 1 2) = None
  /\ lookup "is_dip" (WidthBelowMin 1 2) = None.
Proof. repeat split; vm_compute; reflexivity. Qed.

Lemma full_record_has_fields (f : full_metrics) (key : string) :
  In key candidate_fields -> exists v, lookup key (Metrics f) = Some v.
Proof.
  unfold candidate_fields. cbn [In]. intros H.
  repeat (destruct H as [<- | H]; [eexists; vm_compute; reflexivity|]).
  contradiction.
Qed.

(** C8 (amended): for every call that passes the bounds precondition and the
    width gate, the record returned is the full one, with every field of the
    Candidate record, whatever the verdict.  For [n0 > 0] such a call does
    return, unless numpy is present and [pre] or [post] holds exactly two
    samples: then it raises [ValueError] on line 82. *)
Theorem C8_full_record (M : MathLib) (np : bool) (series : list Q)
    (start end_ pre_window post_window min_width : Z) (k min_abs_depth : Q)
    (require_recovery : bool) (n0 : Z) :
  valid_bounds (len series) start end_ ->
  min_width <= end_ - start + 1 ->
  (forall b m,
      detect_dip M np series start end_ pre_window post_window min_width k
                 min_abs_depth require_recovery n0 = Ok (b, m) ->
      (exists f, m = Metrics f)
      /\ lookup "is_dip" m = Some (VBool b)
      /\ forall key, In key candidate_fields -> exists v, lookup key m = Some v)
  /\ (0 < n0 ->
      ambiguous_side np series start end_ pre_window post_window = false ->
      exists b m,
        detect_dip M np series start end_ pre_window post_window min_width k
                   min_abs_depth require_recovery n0 = Ok (b, m))
  /\ (0 < n0 ->
      ambiguous_side np series start end_ pre_window post_window = true ->
      detect_dip M np series start end_ pre_window post_window min_width k
                 min_abs_depth require_recovery n0 = Raise ValueError).
Proof.
  intros Hb Hw.
  destruct (detect_dip_full M np series start end_ pre_window post_window
              min_width k min_abs_depth require_recovery n0 Hb Hw)
    as [[e [Ha He]] | [[alpha [_ [Hs He]]] | [alpha [b' [f [_ [Hs Hf]]]]]]].
  - split; [|split].
    + intros b m Hcall. congruence.
    + intros Hn. apply alpha_of_raises in Ha. destruct Ha as [_ Ha].
      unfold len in Ha. lia.
    + intros Hn. apply alpha_of_raises in Ha. destruct Ha as [_ Ha].
      unfold len in Ha. lia.
  - split; [|split].
    + intros b m Hcall. congruence.
    + intros _ Hs'. congruence.
    + intros _ _. exact He.
  - split; [|split].
    + intros b m Hcall. rewrite Hf in Hcall. injection Hcall as <- <-.
      split; [now exists f|]. split.
      * apply detect_dip_fields in Hf. cbv zeta in Hf.
        destruct Hf as (_ & _ & _ & _ & _ & Hd & _). vm_compute.
        f_equal. f_equal. exact Hd.
      * intros key. apply full_record_has_fields.
    + intros _ _. eexists. eexists. exact Hf.
    + intros _ Hs'. congruence.
Qed.

(** C8 at a segment that is rejected for its depth. *)
Lemma C8_full_record_witness :
  exists b m,
    detect_dip_defaults approx_math true [5; 5; 5; 5; 5; 5; 5; 5]%Q 3 4
      = Ok (b, m).
Proof.
  apply (C8_full_record approx_math true [5; 5; 5; 5; 5; 5; 5; 5]%Q 3 4
           50 50 2 (1 # 4) 0 true 200).
  - unfold valid_bounds, len. cbn. lia.
  - lia.
  - lia.
  - reflexivity.
Defined.

(** C7, as stated, fails: the segment [6, 7] of a nine-sample series is
    ongoing (its end is within 2 samples of the series end) and passes the
    width gate, one sample follows it, and the recovery check, which is run
    because [post] is not empty, fails. *)
Lemma C7_ongoing_not_recovered :
  exists f,
    detect_dip_defaults approx_math true [5; 5; 5; 5; 5; 5; 3; 2; 2]%Q 6 7
      = Ok (false, Metrics f)
    /\ m_is_ongoing f = true
    /\ m_recovered f = false.
Proof. eexists. split; [vm_compute; reflexivity | split; reflexivity]. Qed.

(** C7 (amended): for a segment that passes the width gate, [is_ongoing] is
    true as soon as its end is within 2 samples of the series end or the post
    context is empty, and [recovered] is true whenever the post context is
    empty; in particular for [5, 5, 5, 4, 3, 2] and the segment [3, 5], with
    either binding of [np] and any math library. *)
Theorem C7_ongoing_recovery (M : MathLib) (np : bool) :
  (forall (series : list Q) (start end_ pre_window post_window min_width : Z)
          (k min_abs_depth : Q) (require_recovery : bool) (n0 : Z)
          (b : bool) (f : full_metrics),
      detect_dip M np series start end_ pre_window post_window min_width k
                 min_abs_depth require_recovery n0 = Ok (b, Metrics f) ->
      (len series - 3 <= end_ \/ post_of series end_ post_window = [] ->
       m_is_ongoing f = true)
      /\ (post_of series end_ post_window = [] ->
          m_is_ongoing f = true /\ m_recovered f = true))
  /\ exists b f,
      detect_dip_defaults M np [5; 5; 5; 4; 3; 2]%Q 3 5 = Ok (b, Metrics f)
      /\ m_is_ongoing f = true
      /\ m_recovered f = true.
Proof.
  assert (forall (series : list Q) (start end_ pre_window post_window min_width : Z)
          (k min_abs_depth : Q) (require_recovery : bool) (n0 : Z)
          (b : bool) (f : full_metrics),
      detect_dip M np series start end_ pre_window post_window min_width k
                 min_abs_depth require_recovery n0 = Ok (b, Metrics f) ->
      (len series - 3 <= end_ \/ post_of series end_ post_window = [] ->
       m_is_ongoing f = true)
      /\ (post_of series end_ post_window = [] ->
          m_is_ongoing f = true /\ m_recovered f = true)) as General.
  { intros series start end_ pre_window post_window min_width k min_abs_depth
           require_recovery n0 b f Hcall.
    apply detect_dip_fields in Hcall. cbv zeta in Hcall.
    destruct Hcall as (_ & _ & _ & _ & _ & _ & _ & _ & _ & Ho & Hr & _).
    assert (len series - 3 <= end_ \/ post_of series end_ post_window = [] ->
            m_is_ongoing f = true) as Hongoing.
    { intros H. rewrite Ho. unfold is_ongoing_of. apply orb_true_iff.
      destruct H as [H | H]; [left; now apply Z.leb_le|].
      right. rewrite H. reflexivity. }
    split; [exact Hongoing|].
    intros Hpost. split; [apply Hongoing; now right|].
    rewrite Hr, Hpost. cbn. now rewrite andb_false_r. }
  split; [exact General|].
  unfold detect_dip_defaults.
  destruct (detect_dip_full M np [5; 5; 5; 4; 3; 2]%Q 3 5 50 50 2 (1 # 4) 0
              true 200)
    as [[e [Ha _]] | [[alpha [_ [Hs _]]] | [alpha [b [f [_ [_ Hf]]]]]]].
  - unfold valid_bounds, len. cbn. lia.
  - lia.
  - apply alpha_of_raises in Ha. destruct Ha as [_ Ha]. unfold len in Ha.
    cbn in Ha. lia.
  - destruct np; discriminate Hs.
  - exists b, f. split; [exact Hf|].
    apply (General _ _ _ _ _ _ _ _ _ _ _ _ Hf). reflexivity.
Qed.

(** The general half of C7 at Scenario D. *)
Lemma C7_ongoing_recovery_witness :
  match detect_dip_defaults approx_math true [5; 5; 5; 4; 3; 2]%Q 3 5 with
  | Ok (_, Metrics f) => m_is_ongoing f = true /\ m_recovered f = true
  | _ => False
  end.
Proof.
  unfold detect_dip_defaults.
  destruct (detect_dip_returns approx_math true [5; 5; 5; 4; 3; 2]%Q 3 5
              50 50 2 (1 # 4) 0 true 200) as (b & f & E).
  - unfold valid_bounds, len. cbn. lia.
  - lia.
  - lia.
  - reflexivity.
  - rewrite E.
    apply (proj1 (C7_ongoing_recovery approx_math true) _ _ _ _ _ _ _ _ _ _ _ _ E).
    reflexivity.
Defined.

(** Nothing but the threshold, the recovery verdict and what follows from
    them depends on [k]. *)
Lemma detect_dip_two_k (M : MathLib) (np : bool) (series : list Q)
    (start end_ pre_window post_window min_width : Z) (k1 k2 min_abs_depth : Q)
    (require_recovery : bool) (n0 : Z) (b1 b2 : bool) (f1 f2 : full_metrics) :
  detect_dip M np series start end_ pre_window post_window min_width k1
             min_abs_depth require_recovery n0 = Ok (b1, Metrics f1) ->
  detect_dip M np series start end_ pre_window post_window min_width k2
             min_abs_depth require_recovery n0 = Ok (b2, Metrics f2) ->
  m_baseline f2 = m_baseline f1 /\ m_seg_min f2 = m_seg_min f1
  /\ m_depth f2 = m_depth f1 /\ m_local_mad f2 = m_local_mad f1.
Proof.
  unfold detect_dip.
  destruct ((start <? 0) || (len series <=? end_) || (end_ <? start));
    [discriminate|].
  cbv zeta. destruct (end_ - start + 1 <? min_width); [discriminate|].
  destruct (alpha_of M (len series) n0) as [alpha | e]; [|discriminate].
  cbn [bind].
  destruct (ref_of np _ _) as [left_ref | e]; [|discriminate]. cbn [bind].
  destruct (ref_of np _ _) as [right_ref | e]; [|discriminate]. cbn [bind].
  intros [= <- <-] [= <- <-]. cbn. repeat split; reflexivity.
Qed.

Lemma detect_dip_ok_bounds (M : MathLib) (np : bool) (series : list Q)
    (start end_ pre_window post_window min_width : Z) (k min_abs_depth : Q)
    (require_recovery : bool) (n0 : Z) (r : bool * metrics) :
  detect_dip M np series start end_ pre_window post_window min_width k
             min_abs_depth require_recovery n0 = Ok r ->
  valid_bounds (len series) start end_.
Proof.
  intros H. apply bounds_test_false. unfold detect_dip in H.
  destruct ((start <? 0) || (len series <=? end_) || (end_ <? start));
    [discriminate | reflexivity].
Qed.

(** C6: on this series the segment [6, 7] is rejected for [k = 0.5] and
    accepted for [k = 1], against "lower k = more permissive" (line 32).  At
    [k = 0.5] the ratio [depth / depth_threshold] exceeds 3 and the branch
    for very deep dips (lines 585-595), meant to relax the requirement, finds
    no sample near the baseline and rejects; at [k = 1] the ratio is below 3
    and the improvement test of lines 602-614, which the deep branch lacks,
    accepts. *)
Lemma C6_larger_k_accepts :
  exists m1 m2,
    detect_dip approx_math true
      [10; 10; 10; 10; 10; 10; 2; 2; 3; 3; 3; 5; 5; 5]%Q 6 7
      50 50 2 (1 # 2) 0 true 200 = Ok (false, m1)
    /\ detect_dip approx_math true
      [10; 10; 10; 10; 10; 10; 2; 2; 3; 3; 3; 5; 5; 5]%Q 6 7
      50 50 2 1 0 true 200 = Ok (true, m2).
Proof. eexists. eexists. split; vm_compute; reflexivity. Qed.

(** [depth] does not depend on [k] and [depth_threshold] is non-decreasing in
    [k]; when the recovery check is not run ([require_recovery] is false, or
    no sample follows the segment) a segment rejected for [k1] is rejected
    for every [k2 >= k1]. *)
Lemma verdict_monotone_in_k (M : MathLib) (np : bool) (series : list Q)
    (start end_ pre_window post_window min_width : Z) (k1 k2 min_abs_depth : Q)
    (require_recovery : bool) (n0 : Z) (b1 : bool) (m1 : metrics) :
  (k1 <= k2)%Q ->
  detect_dip M np series start end_ pre_window post_window min_width k1
             min_abs_depth require_recovery n0 = Ok (b1, m1) ->
  exists b2 m2,
    detect_dip M np series start end_ pre_window post_window min_width k2
               min_abs_depth require_recovery n0 = Ok (b2, m2)
    /\ (forall f1 f2, m1 = Metrics f1 -> m2 = Metrics f2 ->
        m_depth f2 = m_depth f1
        /\ (m_depth_threshold f1 <= m_depth_threshold f2)%Q)
    /\ (require_recovery = false \/ post_of series end_ post_window = [] ->
        b1 = false -> b2 = false).
Proof.
  intros Hk H1.
  pose proof (detect_dip_ok_bounds _ _ _ _ _ _ _ _ _ _ _ _ _ H1) as Hb.
  destruct (Z_lt_ge_dec (end_ - start + 1) min_width) as [Hlt | Hge].
  - exists false, (WidthBelowMin (end_ - start + 1) min_width).
    rewrite (detect_dip_gate M np series start end_ pre_window post_window
               min_width k1 min_abs_depth require_recovery n0 Hb Hlt) in H1.
    injection H1 as <- <-.
    split; [now apply detect_dip_gate|]. split; [discriminate | reflexivity].
  - apply Z.ge_le in Hge.
    destruct (detect_dip_full M np series start end_ pre_window post_window
                min_width k1 min_abs_depth require_recovery n0 Hb Hge)
      as [[e [_ He]] | [[alpha [_ [_ He]]] | [alpha [b1' [f1 [Ha [Hs Hf1]]]]]]];
      [congruence | congruence |].
    destruct (detect_dip_full M np series start end_ pre_window post_window
                min_width k2 min_abs_depth require_recovery n0 Hb Hge)
      as [[e [Ha' _]] | [[alpha' [_ [Hs' _]]] | [alpha' [b2 [f2 [_ [_ Hf2]]]]]]];
      [congruence | congruence |].
    rewrite Hf1 in H1. injection H1 as <- <-.
    exists b2, (Metrics f2). split; [exact Hf2|].
    destruct (detect_dip_two_k _ _ _ _ _ _ _ _ _ _ _ _ _ _ _ _ _ Hf1 Hf2)
      as (_ & _ & Hd & Hm).
    pose proof (detect_dip_fields _ _ _ _ _ _ _ _ _ _ _ _ _ _ Hf1) as F1.
    pose proof (detect_dip_fields _ _ _ _ _ _ _ _ _ _ _ _ _ _ Hf2) as F2.
    cbv zeta in F1, F2.
    destruct F1 as (_ & _ & _ & _ & _ & _ & _ & Hmad1 & Ht1 & _ & Hr1 & Hv1 & _).
    destruct F2 as (_ & _ & _ & _ & _ & _ & _ & _ & Ht2 & _ & Hr2 & Hv2 & _).
    assert (m_depth_threshold f1 <= m_depth_threshold f2)%Q as Hthr.
    { rewrite Ht1, Ht2, Hm. apply pymax_mono_r.
      assert (0 < m_local_mad f1)%Q
        by (rewrite Hmad1; apply local_mad_of_pos).
      apply Qmult_le_compat_r; [assumption | now apply Qlt_le_weak]. }
    split.
    + intros g1 g2 [= <-] [= <-]. split; assumption.
    + intros Hnorec ->.
      assert (require_recovery && (0 <? len (post_of series end_ post_window))
              = false) as Hoff.
      { destruct Hnorec as [-> | ->]; [reflexivity|]. now rewrite andb_false_r. }
      rewrite Hoff in Hr1, Hr2. rewrite Hr1, andb_true_r in Hv1.
      rewrite Hr2, andb_true_r in Hv2. rewrite Hv2.
      symmetry in Hv1. apply Qleb_false in Hv1. apply Qleb_false.
      rewrite Hd. lra.
Qed.

(** With recovery switched off, on a segment that is too shallow. *)
Lemma verdict_monotone_in_k_witness :
  exists m1 b2 m2,
    detect_dip approx_math true
      [10; 10; 10; 10; 10; 10; 9; 9; 3; 3; 3; 5; 5; 5]%Q 6 7
      50 50 2 1 0 false 200 = Ok (false, m1)
    /\ detect_dip approx_math true
      [10; 10; 10; 10; 10; 10; 9; 9; 3; 3; 3; 5; 5; 5]%Q 6 7
      50 50 2 2 0 false 200 = Ok (b2, m2)
    /\ b2 = false.
Proof.
  assert (exists m1,
            detect_dip approx_math true
              [10; 10; 10; 10; 10; 10; 9; 9; 3; 3; 3; 5; 5; 5]%Q 6 7
              50 50 2 1 0 false 200 = Ok (false, m1)) as [m1 H1]
    by (eexists; vm_compute; reflexivity).
  assert (1 <= 2)%Q as Hk by (unfold Qle; cbn; lia).
  destruct (verdict_monotone_in_k approx_math true _ 6 7 50 50 2 1 2 0 false 200
              false m1 Hk H1) as (b2 & m2 & H2 & _ & Hv).
  exists m1, b2, m2. split; [exact H1|]. split; [exact H2|].
  apply Hv; [left|]; reflexivity.
Defined.

(** ** The two bindings of [np] *)

Lemma np_median_agrees (v : list Q) : np_median v = _median false v.
Proof.
  unfold _median, np_median. cbv zeta.
  destruct (len (sorted v) =? 0); [reflexivity|].
  pose proof (Z.mod_pos_bound (len (sorted v)) 2 ltac:(lia)) as Hr.
  destruct (len (sorted v) mod 2 =? 1) eqn:E1;
    destruct (len (sorted v) mod 2 =? 0) eqn:E0; cbn; try reflexivity.
  - apply Z.eqb_eq in E1, E0. lia.
  - apply Z.eqb_neq in E1, E0. lia.
Qed.


Lemma fold_pymin_le (t : list Q) (x : Q) : (fold_left pymin t x <= x)%Q.
Proof.
  revert x. induction t as [|y t IH]; intros x; cbn; [lra|].
  specialize (IH (pymin x y)).
  destruct (pymin_cases x y) as [[E H] | [E H]]; rewrite E in *; lra.
Qed.

Lemma argmin_from_index (t : list Q) (i best_i : Z) (best : Q) :
  argmin_from t i best_i best =
  if Qltb (fold_left pymin t best) best
  then i + index t (fold_left pymin t best)
  else best_i.
Proof.
  revert i best_i best.
  induction t as [|x t IH]; intros i best_i best;
    cbn [argmin_from fold_left index].
  - assert (Qltb best best = false) as -> by (apply Qltb_false; lra).
    reflexivity.
  - assert (pymin best x = if Qltb x best then x else best) as -> by reflexivity.
    destruct (Qltb x best) eqn:Ex.
    + rewrite IH. apply Qltb_true in Ex.
      pose proof (fold_pymin_le t x) as Hle.
      assert (Qltb (fold_left pymin t x) best = true) as ->
        by (apply Qltb_true; lra).
      destruct (Qltb (fold_left pymin t x) x) eqn:Ev.
      * apply Qltb_true in Ev.
        assert (Qeqb x (fold_left pymin t x) = false) as ->
          by (apply Qeqb_false; intros E; lra).
        cbv beta iota. lia.
      * apply Qltb_false in Ev.
        assert (Qeqb x (fold_left pymin t x) = true) as ->
          by (apply Qeqb_true; lra).
        cbv beta iota. lia.
    + rewrite IH. apply Qltb_false in Ex.
      destruct (Qltb (fold_left pymin t best) best) eqn:Ev; [|reflexivity].
      apply Qltb_true in Ev.
      assert (Qeqb x (fold_left pymin t best) = false) as ->
        by (apply Qeqb_false; intros E; lra).
      cbv beta iota. lia.
Qed.

(** [np.argmin(segment)] is [segment.index(min(segment))]. *)
Lemma np_argmin_index (l : list Q) : np_argmin l = index l (list_min l).
Proof.
  destruct l as [|x t]; [reflexivity|].
  cbn [np_argmin list_min index]. rewrite argmin_from_index.
  pose proof (fold_pymin_le t x) as Hle.
  destruct (Qltb (fold_left pymin t x) x) eqn:Ev.
  - apply Qltb_true in Ev.
    assert (Qeqb x (fold_left pymin t x) = false) as ->
      by (apply Qeqb_false; intros E; lra).
    reflexivity.
  - apply Qltb_false in Ev.
    assert (Qeqb x (fold_left pymin t x) = true) as ->
      by (apply Qeqb_true; lra).
    reflexivity.
Qed.

(** The defaults of the signature on lines 251-263. *)
Definition find_all_dips_defaults (M : MathLib) (np : bool) (series : list Q)
  : result (list candidate) :=
  find_all_dips M np series 3 (3 # 10) None None 2 (1 # 4) 0 true 200 50 true None.




(** ** Scale-factor selection *)



(** ** Minima lie inside the series *)

Lemma range_In (lo hi i : Z) : In i (range lo hi) <-> lo <= i < hi.
Proof.
  unfold range. rewrite in_map_iff. split.
  - intros [n [<- Hn]]. apply in_seq in Hn. lia.
  - intros H. exists (Z.to_nat (i - lo)). split; [lia|]. apply in_seq. lia.
Qed.

Lemma range_length (lo hi : Z) : len (range lo hi) = Z.max 0 (hi - lo).
Proof. unfold len, range. rewrite length_map, length_seq. lia. Qed.

Section MinimaFacts.

Variable x : list Q.

Definition inside (m : minimum) : Prop := 0 <= min_index m < len x.

Lemma plateau_end_bounds (fuel : nat) (i j : Z) :
  j <= len x - 1 -> j <= plateau_end x fuel i j <= len x - 1.
Proof.
  revert j. induction fuel as [|fuel IH]; intros j Hj; cbn; [lia|].
  destruct ((j <? len x - 1) && Qeqb (at_ x (j + 1)) (at_ x i)) eqn:E; [|lia].
  apply andb_true_iff in E. destruct E as [E _]. apply Z.ltb_lt in E.
  specialize (IH (j + 1)). lia.
Qed.

Lemma scan_step_spec (min_prominence : Q) (proximity_range i : Z) :
  1 <= i < len x - 1 ->
  let '(found, i') := scan_step x min_prominence proximity_range i in
  i < i' /\ match found with Some m => inside m | None => True end.
Proof.
  intros Hi. unfold scan_step.
  destruct (Qleb (at_ x i) (at_ x (i - 1)) && Qleb (at_ x i) (at_ x (i + 1)));
    [|split; [lia | exact I]].
  cbv zeta.
  pose proof (plateau_end_bounds (Z.to_nat (len x)) i i ltac:(lia)) as Hj.
  set (j := plateau_end x (Z.to_nat (len x)) i i) in *.
  split; [lia|].
  match goal with
  | |- match (if ?c then _ else None) with _ => _ end => destruct c
  end; [|exact I].
  match goal with
  | |- match (if ?c then _ else None) with _ => _ end => destruct c
  end; [|exact I].
  unfold inside, min_index. cbn [fst].
  assert (i <= (i + j) / 2) by (apply Z.div_le_lower_bound; lia).
  assert ((i + j) / 2 <= j) by (apply Z.div_le_upper_bound; lia).
  lia.
Qed.

Lemma scan_inside (fuel : nat) (min_prominence : Q) (proximity_range i : Z)
    (minima : list minimum) :
  1 <= i -> Forall inside minima ->
  Forall inside (scan x fuel min_prominence proximity_range i minima).
Proof.
  revert i minima. induction fuel as [|fuel IH]; intros i minima Hi Hm; cbn;
    [assumption|].
  destruct (i <? len x - 1) eqn:E; [|assumption].
  apply Z.ltb_lt in E.
  pose proof (scan_step_spec min_prominence proximity_range i ltac:(lia)) as Hs.
  destruct (scan_step x min_prominence proximity_range i) as [found i'].
  destruct Hs as [Hlt Hfound]. apply IH; [lia|].
  destruct found as [m|]; [|assumption].
  apply Forall_app. split; [assumption | now constructor].
Qed.

Lemma tail_minimum_inside (min_prominence : Q) (proximity_range : Z)
    (minima : list minimum) :
  Forall inside minima ->
  Forall inside (tail_minimum x min_prominence proximity_range minima).
Proof.
  intros Hm. unfold tail_minimum.
  destruct (3 <=? len x) eqn:E3; [|assumption]. apply Z.leb_le in E3.
  cbv zeta.
  destruct (Qltb _ _); [|assumption].
  destruct (1 <=? _); [|assumption].
  destruct (_ && _); [|assumption].
  apply Forall_app. split; [assumption|]. constructor; [|constructor].
  unfold inside, min_index. cbn [fst]. lia.
Qed.

(** Every minimum reported for [x] has an index within [0, N). *)
Lemma find_local_minima_inside (min_prominence : Q) (proximity_range : Z) :
  Forall inside (find_local_minima x min_prominence proximity_range).
Proof.
  unfold find_local_minima. destruct (len x <? 3); [constructor|].
  apply tail_minimum_inside, scan_inside; [lia | constructor].
Qed.

End MinimaFacts.

(** ** Bounds of the expanded segment *)

Lemma crossing_level_numpy (baseline min_val threshold_factor : Q) :
  exists c, crossing_level_of true baseline min_val threshold_factor = Ok c.
Proof.
  unfold crossing_level_of. cbv zeta.
  destruct (Qltb 0 (baseline - min_val)); [|eexists; reflexivity].
  destruct (Qeqb (baseline + eps9) 0); [|eexists; reflexivity].
  destruct (Qltb threshold_factor 0); eexists; reflexivity.
Qed.

Lemma expand_bounds (np : bool) (x : list Q) (min_idx : Z)
    (baseline threshold_factor : Q) (start end_ : Z) :
  0 <= min_idx < len x ->
  expand_dip_boundaries np x min_idx baseline threshold_factor = Ok (start, end_) ->
  0 <= start /\ start <= min_idx /\ min_idx <= end_ /\ end_ <= len x - 1.
Proof.
  intros Hi. unfold expand_dip_boundaries. cbv zeta.
  destruct (crossing_level_of np baseline (at_ x min_idx) threshold_factor)
    as [c | e]; [|discriminate].
  cbn [bind]. intros [= <- <-].
  split; [|split; [|split]].
  - destruct (find _ (rev (range 0 min_idx))) as [i|] eqn:E; [|lia].
    apply find_some in E. destruct E as [E _].
    apply in_rev, range_In in E. lia.
  - destruct (find _ (rev (range 0 min_idx))) as [i|] eqn:E; [|lia].
    apply find_some in E. destruct E as [E _].
    apply in_rev, range_In in E. lia.
  - destruct (find _ (range (min_idx + 1) (len x))) as [i|] eqn:E; [|lia].
    apply find_some in E. destruct E as [E _]. apply range_In in E. lia.
  - destruct (find _ (range (min_idx + 1) (len x))) as [i|] eqn:E; [|lia].
    apply find_some in E. destruct E as [E _]. apply range_In in E. lia.
Qed.

Lemma expand_returns (np : bool) (x : list Q) (min_idx : Z)
    (baseline threshold_factor : Q) :
  np = true
  \/ ~ (baseline + eps9 == 0)%Q
  \/ (baseline - at_ x min_idx <= 0)%Q ->
  exists start end_,
    expand_dip_boundaries np x min_idx baseline threshold_factor = Ok (start, end_).
Proof.
  intros H. unfold expand_dip_boundaries. cbv zeta.
  assert (exists c, crossing_level_of np baseline (at_ x min_idx) threshold_factor
                    = Ok c) as [c ->].
  { destruct H as [-> | [H | H]]; [apply crossing_level_numpy | |];
      unfold crossing_level_of; cbv zeta.
    - destruct (Qltb 0 _); [|eexists; reflexivity].
      apply Qeqb_false in H. rewrite H. eexists; reflexivity.
    - apply Qltb_false in H. rewrite H. eexists; reflexivity. }
  cbn [bind]. eexists. eexists. reflexivity.
Qed.

(** ** Invariants of the discoverer *)

(** A kept record is well formed: its confidence is in the unit interval and
    it was found at a scale factor whose square root was taken. *)
Definition good (c : candidate) : Prop :=
  (0 <= c_confidence c <= 1)%Q /\ 0 <= c_scale_factor c.

Lemma insert_by_In {A : Type} (before : A -> A -> bool) (a b : A) (l : list A) :
  In b (insert_by before a l) -> b = a \/ In b l.
Proof.
  induction l as [|y t IH]; cbn.
  - intros [<- | []]. now left.
  - destruct (before a y); cbn.
    + intros [<- | H]; [now left | now right].
    + intros [<- | H]; [right; now left|].
      destruct (IH H) as [-> | H']; [now left | right; now right].
Qed.

Lemma sort_by_In {A : Type} (before : A -> A -> bool) (b : A) (l : list A) :
  In b (sort_by before l) -> In b l.
Proof.
  unfold sort_by. induction l as [|x t IH]; cbn; [trivial|].
  intros H. apply insert_by_In in H. destruct H as [-> | H]; auto.
Qed.

Lemma sort_by_Forall {A : Type} (P : A -> Prop) (before : A -> A -> bool)
    (l : list A) : Forall P l -> Forall P (sort_by before l).
Proof.
  rewrite !Forall_forall. intros H a Ha. apply H. now apply sort_by_In in Ha.
Qed.

Lemma In_firstn {A : Type} (a : A) (n : nat) (l : list A) :
  In a (firstn n l) -> In a l.
Proof.
  intros H. rewrite <- (firstn_skipn n l). apply in_or_app. now left.
Qed.

Lemma In_skipn {A : Type} (a : A) (n : nat) (l : list A) :
  In a (skipn n l) -> In a l.
Proof.
  intros H. rewrite <- (firstn_skipn n l). apply in_or_app. now right.
Qed.

Lemma slice_Forall {A : Type} (P : A -> Prop) (l : list A) (lo hi : Z) :
  Forall P l -> Forall P (slice l lo hi).
Proof.
  intros H. unfold slice. cbv zeta.
  rewrite Forall_forall in *. intros a Ha. apply H.
  apply In_firstn in Ha. now apply In_skipn in Ha.
Qed.

Lemma set_scales_good (c : candidate) (n : Z) (l : list Z) :
  good c -> good (set_scales c n l).
Proof. intros H. exact H. Qed.

Lemma finalize_good (c : candidate) (scales : list Z) :
  good c -> good (finalize c scales).
Proof.
  intros [Hc Hs]. unfold finalize. cbv zeta.
  destruct (1 <? len scales) eqn:E; [|split; assumption].
  apply Z.ltb_lt in E. split; [|exact Hs].
  unfold c_confidence, set_confidence. cbn.
  apply boost_unit; [apply Hc|].
  assert (0 <= ofZ (len scales - 1))%Q by (unfold ofZ, Qle; cbn; lia).
  assert (0 <= (1 # 10) * ofZ (len scales - 1))%Q
    by (apply Qmult_le_0_compat; [lra | assumption]).
  lra.
Qed.

Section DiscovererFacts.

Variable M : MathLib.
Variable np : bool.

Variable series : list Q.
Variables pre_window post_window min_width : Z.
Variables k min_abs_depth : Q.
Variable require_recovery : bool.
Variable n0 : Z.

Lemma classify_minimum_good (x_smooth : list Q) (scale_factor : Z) (m : minimum)
    (c : candidate) :
  classify_minimum M np series pre_window post_window min_width k min_abs_depth
                   require_recovery n0 x_smooth scale_factor m = Ok (Some c) ->
  (0 <= c_confidence c <= 1)%Q /\ c_scale_factor c = scale_factor.
Proof.
  unfold classify_minimum. cbv zeta.
  destruct (expand_dip_boundaries _ _ _ _ _) as [[s e] | err]; [|discriminate].
  cbn [bind].
  destruct (detect_dip _ _ _ _ _ _ _ _ _ _ _ _) as [[b mt] | err] eqn:E;
    [|discriminate].
  cbn [bind]. destruct b; [|discriminate]. destruct mt as [w mw | f];
    [discriminate|].
  intros [= <-]. split; [|reflexivity].
  apply detect_dip_fields in E. cbv zeta in E.
  destruct E as (_ & _ & _ & _ & _ & _ & _ & _ & _ & _ & _ & _ & Hc & _).
  unfold c_confidence. cbn [c_metrics]. rewrite Hc. apply clamp_unit.
Qed.

Lemma classify_minima_good (x_smooth : list Q) (scale_factor : Z)
    (minima : list minimum) (acc out : list candidate) :
  0 <= scale_factor ->
  Forall good acc ->
  classify_minima M np series pre_window post_window min_width k min_abs_depth
                  require_recovery n0 x_smooth scale_factor minima acc = Ok out ->
  Forall good out.
Proof.
  intros Hs. revert acc. induction minima as [|m rest IH]; intros acc Hacc; cbn.
  - intros [= <-]. assumption.
  - destruct (classify_minimum _ _ _ _ _ _ _ _ _ _ _ _ m) as [found | err] eqn:E;
      [|discriminate].
    cbn [bind]. apply IH. destruct found as [c|]; [|assumption].
    apply classify_minimum_good in E. destruct E as [Hc Hsf].
    apply Forall_app. split; [assumption|]. constructor; [|constructor].
    split; [assumption | lia].
Qed.

Lemma scan_scale_good (smoothing_window : Z) (min_prominence_factor : Q)
    (scale_factor : Z) (acc out : list candidate) :
  Forall good acc ->
  scan_scale M np series pre_window post_window min_width k min_abs_depth
             require_recovery n0 smoothing_window min_prominence_factor
             scale_factor acc = Ok out ->
  Forall good out.
Proof.
  intros Hacc. unfold scan_scale. cbv zeta.
  match goal with |- bind ?r _ = _ -> _ => destruct r as [x_smooth | err] end;
    [|discriminate].
  cbn [bind].
  match goal with |- bind ?r _ = _ -> _ => destruct r as [global_mad | err] end;
    [|discriminate].
  cbn [bind]. unfold sqrt_int.
  destruct (scale_factor <? 0) eqn:Es; [discriminate|]. apply Z.ltb_ge in Es.
  cbn [bind].
  match goal with |- bind ?r _ = _ -> _ => destruct r as [spf | err] end;
    [|discriminate].
  cbn [bind]. now apply classify_minima_good.
Qed.

Lemma scan_scales_good (smoothing_window : Z) (min_prominence_factor : Q)
    (scale_factors : list Z) (acc out : list candidate) :
  Forall good acc ->
  scan_scales M np series pre_window post_window min_width k min_abs_depth
              require_recovery n0 smoothing_window min_prominence_factor
              scale_factors acc = Ok out ->
  Forall good out.
Proof.
  revert acc. induction scale_factors as [|sf rest IH]; intros acc Hacc; cbn.
  - intros [= <-]. assumption.
  - destruct (scan_scale _ _ _ _ _ _ _ _ _ _ _ _ sf acc) as [found | err] eqn:E;
      [|discriminate].
    cbn [bind]. apply IH. now apply scan_scale_good in E.
Qed.

(** The sweep keeps every record well formed. *)
Definition good_sweep (st : sweep) : Prop :=
  let '(current, _, merged) := st in good current /\ Forall good merged.

Lemma merge_step_good (st st' : sweep) (next_dip : candidate) :
  good_sweep st -> good next_dip ->
  merge_step M np st next_dip = Ok st' -> good_sweep st'.
Proof.
  destruct st as [[current scales] merged]. intros [Hc Hm] Hn.
  unfold merge_step.
  destruct (sqrt_int M _) as [root | err]; [|discriminate]. cbn [bind].
  cbv zeta.
  destruct (c_start next_dip <=? _).
  - destruct (Qltb _ _); [intros [= <-]; split; assumption|].
    destruct (Qeqb _ 0).
    + destruct np; [|discriminate]. intros [= <-]. split; assumption.
    + destruct (Qltb _ _); intros [= <-]; split; assumption.
  - intros [= <-]. split; [assumption|].
    apply Forall_app. split; [assumption|]. constructor; [|constructor].
    now apply finalize_good.
Qed.

Lemma merge_sweep_good (st st' : sweep) (rest : list candidate) :
  good_sweep st -> Forall good rest ->
  merge_sweep M np st rest = Ok st' -> good_sweep st'.
Proof.
  revert st. induction rest as [|next_dip rest IH]; intros st Hst Hrest; cbn.
  - intros [= <-]. assumption.
  - inversion Hrest; subst.
    destruct (merge_step M np st next_dip) as [st1 | err] eqn:E; [|discriminate].
    cbn [bind]. apply IH; [|assumption].
    now apply (merge_step_good st st1 next_dip).
Qed.

Lemma merge_candidates_good (all_candidates out : list candidate) :
  Forall good all_candidates ->
  merge_candidates M np all_candidates = Ok out ->
  Forall good out.
Proof.
  intros Hall. unfold merge_candidates.
  destruct all_candidates as [|c1 [|c2 rest]].
  - intros [= <-]. constructor.
  - intros [= <-]. inversion Hall; subst. constructor; [|constructor].
    now apply set_scales_good.
  - pose proof (sort_by_Forall good (fun a b => c_start a <=? c_start b) _ Hall)
      as Hsorted.
    destruct (sort_by _ (c1 :: c2 :: rest)) as [|first others];
      [intros [= <-]; constructor|].
    inversion Hsorted; subst.
    destruct (merge_sweep M np _ others) as [[[current scales] merged] | err] eqn:E;
      [|discriminate].
    cbn [bind]. intros [= <-].
    apply merge_sweep_good in E; [|split; [assumption | constructor] | assumption].
    destruct E as [Hc Hm].
    apply Forall_app. split; [assumption|]. constructor; [|constructor].
    now apply finalize_good.
Qed.

End DiscovererFacts.

(** Every record [find_all_dips] returns is well formed. *)
Lemma find_all_dips_good (M : MathLib) (np : bool) (series : list Q)
    (smoothing_window : Z) (min_prominence_factor : Q)
    (pre_window post_window : option Z) (min_width : Z) (k min_abs_depth : Q)
    (require_recovery : bool) (n0 max_dips : Z) (multi_scale : bool)
    (scale_factors : option (list Z)) (out : list candidate) :
  find_all_dips M np series smoothing_window min_prominence_factor pre_window
                post_window min_width k min_abs_depth require_recovery n0
                max_dips multi_scale scale_factors = Ok out ->
  Forall good out.
Proof.
  unfold find_all_dips. cbv zeta.
  destruct (len series <? min_width); [intros [= <-]; constructor|].
  destruct (scan_scales _ _ _ _ _ _ _ _ _ _ _ _ _ []) as [all | err] eqn:E;
    [|discriminate].
  cbn [bind]. apply scan_scales_good in E; [|constructor].
  destruct all as [|c rest]; [intros [= <-]; constructor|].
  destruct (merge_candidates M np (c :: rest)) as [merged | err] eqn:Em;
    [|discriminate].
  cbn [bind]. intros [= <-].
  apply merge_candidates_good in Em; [|assumption].
  unfold slice_to. apply slice_Forall. now apply sort_by_Forall.
Qed.

(** ** Segments handed to the classifier *)

(** A segment grown from a minimum inside the series meets the bounds
    precondition of [detect_dip] and holds the minimum. *)
Lemma expanded_segment_valid (series : list Q) (np : bool) (x_smooth : list Q)
    (m : minimum) (baseline threshold_factor : Q) (start end_ : Z) :
  len x_smooth = len series ->
  inside x_smooth m ->
  expand_dip_boundaries np x_smooth (min_index m) baseline threshold_factor
    = Ok (start, end_) ->
  valid_bounds (len series) start end_ /\ start <= min_index m <= end_.
Proof.
  intros Hlen Hin Hex. apply expand_bounds in Hex; [|exact Hin].
  unfold valid_bounds. rewrite <- Hlen. lia.
Qed.

Lemma moving_median_length (x out : list Q) (w : Z) :
  moving_median x w = Ok out -> len out = len x.
Proof.
  unfold moving_median. cbv zeta. destruct (len x =? 0); [discriminate|].
  intros [= <-]. unfold len at 1. rewrite length_map.
  fold (len (range 0 (len x))). rewrite range_length. unfold len. lia.
Qed.

(** ** Claims about [find_all_dips] *)

(** C2, as stated, fails for [detect_dip]: the record of a segment that fails
    the width gate has no ["confidence"] field. *)
Lemma C2_gated_record_lacks_confidence :
  detect_dip_defaults approx_math true [2; 1; 2]%Q 1 1
    = Ok (false, WidthBelowMin 1 2)
  /\ lookup "confidence" (WidthBelowMin 1 2) = None.
Proof. split; vm_compute; reflexivity. Qed.

(** C2 (amended): the confidence of every full record produced by
    [detect_dip], and of every record returned by [find_all_dips] (after the
    cross-scale boost), lies in the closed interval [0, 1]. *)
Theorem C2_confidence_unit (M : MathLib) (np : bool) :
  (forall (series : list Q) (start end_ pre_window post_window min_width : Z)
          (k min_abs_depth : Q) (require_recovery : bool) (n0 : Z)
          (b : bool) (f : full_metrics),
      detect_dip M np series start end_ pre_window post_window min_width k
                 min_abs_depth require_recovery n0 = Ok (b, Metrics f) ->
      lookup "confidence" (Metrics f) = Some (VFloat (m_confidence f))
      /\ (0 <= m_confidence f <= 1)%Q)
  /\ (forall (series : list Q) (smoothing_window : Z) (min_prominence_factor : Q)
             (pre_window post_window : option Z) (min_width : Z)
             (k min_abs_depth : Q) (require_recovery : bool) (n0 max_dips : Z)
             (multi_scale : bool) (scale_factors : option (list Z))
             (out : list candidate) (c : candidate),
      find_all_dips M np series smoothing_window min_prominence_factor
                    pre_window post_window min_width k min_abs_depth
                    require_recovery n0 max_dips multi_scale scale_factors
        = Ok out ->
      In c out ->
      lookup "confidence" (Metrics (c_metrics c)) = Some (VFloat (c_confidence c))
      /\ (0 <= c_confidence c <= 1)%Q).
Proof.
  split.
  - intros series start end_ pre_window post_window min_width k min_abs_depth
           require_recovery n0 b f Hcall.
    split; [reflexivity|].
    apply detect_dip_fields in Hcall. cbv zeta in Hcall.
    destruct Hcall as (_ & _ & _ & _ & _ & _ & _ & _ & _ & _ & _ & _ & Hc & _).
    rewrite Hc. apply clamp_unit.
  - intros series smoothing_window min_prominence_factor pre_window post_window
           min_width k min_abs_depth require_recovery n0 max_dips multi_scale
           scale_factors out c Hcall Hin.
    split; [reflexivity|].
    apply find_all_dips_good in Hcall. rewrite Forall_forall in Hcall.
    apply (Hcall c Hin).
Qed.

(** C2 on the first dip of Scenario C, found without numpy at both scales,
    whose confidence was boosted. *)
Lemma C2_confidence_unit_witness :
  exists c rest,
    find_all_dips_defaults approx_math false
      [5; 5; 5; 4; 3; 5 # 2; 3; 4; 5; 5; 5; 48 # 10; 3; 2; 3; 48 # 10; 5]%Q
      = Ok (c :: rest)
    /\ c_detected_at_scales c = Some 2
    /\ (0 <= c_confidence c <= 1)%Q.
Proof.
  assert (exists c rest,
             find_all_dips_defaults approx_math false
               [5; 5; 5; 4; 3; 5 # 2; 3; 4; 5; 5; 5; 48 # 10; 3; 2; 3; 48 # 10; 5]%Q
               = Ok (c :: rest)
             /\ c_detected_at_scales c = Some 2) as (c & rest & E & Hs)
    by (eexists; eexists; split; [vm_compute; reflexivity | reflexivity]).
  exists c, rest. split; [exact E|]. split; [exact Hs|].
  apply (proj2 (C2_confidence_unit approx_math false) _ _ _ _ _ _ _ _ _ _ _ _ _
               (c :: rest) c E).
  now left.
Defined.

(** Nothing validates the options of [find_all_dips]: it raises
    - [ZeroDivisionError] for [n0 = 0], as soon as a candidate reaches the
      classifier (here on the series of Scenario C);
    - [ValueError] for an empty series with [min_width = 0] ([np.pad]);
    - without numpy, [ZeroDivisionError] for [k = 0] and [min_abs_depth = 0]
      on a series whose dip [2, 3] has depth exactly 0: the dip is kept at
      scales 1 and 2 and line 421 divides by its depth. *)
Lemma find_all_dips_unchecked_options :
  find_all_dips approx_math true
    [5; 5; 5; 4; 3; 5 # 2; 3; 4; 5; 5; 5; 48 # 10; 3; 2; 3; 48 # 10; 5]%Q
    3 (3 # 10) None None 2 (1 # 4) 0 true 0 50 true None
    = Raise ZeroDivisionError
  /\ find_all_dips approx_math true []
       3 (3 # 10) None None 0 (1 # 4) 0 true 200 50 true None
    = Raise ValueError
  /\ find_all_dips approx_math false
       [14; 14; 12; 12; 14; 14; 9; 9; 3; 9; 9; 9; 9; 9; 9; 9; 9; 9; 9; 9]%Q
       3 (3 # 10) None None 2 0 0 true 200 50 true None
    = Raise ZeroDivisionError.
Proof. repeat split; vm_compute; reflexivity. Qed.

(** [find_all_dips] returns the empty list when the series is shorter than
    [min_width], whatever the options. *)
Lemma find_all_dips_short (M : MathLib) (np : bool) (series : list Q)
    (smoothing_window : Z) (min_prominence_factor : Q)
    (pre_window post_window : option Z) (min_width : Z) (k min_abs_depth : Q)
    (require_recovery : bool) (n0 max_dips : Z) (multi_scale : bool)
    (scale_factors : option (list Z)) :
  len series < min_width ->
  find_all_dips M np series smoothing_window min_prominence_factor pre_window
                post_window min_width k min_abs_depth require_recovery n0
                max_dips multi_scale scale_factors = Ok [].
Proof.
  intros Hshort. unfold find_all_dips. cbv zeta.
  apply Z.ltb_lt in Hshort. rewrite Hshort. reflexivity.
Qed.

(** C4: with numpy and every option at its default, [find_all_dips] raises
    [ValueError] on the 17-sample series of Scenario C.  Its second dip is
    grown to the segment [12, 14]; the windows are [N // 4 = 4] samples wide,
    so only the two samples [15, 16] follow the segment, [post] is an array
    of two elements and line 82 raises when line 571 asks for its trimmed
    mean.  The classifier called on that segment with the same windows raises
    as well; without numpy the run returns two dips. *)
Theorem C4_default_run_raises :
  find_all_dips_defaults approx_math true
    [5; 5; 5; 4; 3; 5 # 2; 3; 4; 5; 5; 5; 48 # 10; 3; 2; 3; 48 # 10; 5]%Q
    = Raise ValueError
  /\ post_of
       [5; 5; 5; 4; 3; 5 # 2; 3; 4; 5; 5; 5; 48 # 10; 3; 2; 3; 48 # 10; 5]%Q
       14 4 = [48 # 10; 5]%Q
  /\ detect_dip approx_math true
       [5; 5; 5; 4; 3; 5 # 2; 3; 4; 5; 5; 5; 48 # 10; 3; 2; 3; 48 # 10; 5]%Q
       12 14 4 4 2 (1 # 4) 0 true 200 = Raise ValueError
  /\ exists c1 c2,
      find_all_dips_defaults approx_math false
        [5; 5; 5; 4; 3; 5 # 2; 3; 4; 5; 5; 5; 48 # 10; 3; 2; 3; 48 # 10; 5]%Q
        = Ok [c1; c2].
Proof.
  split; [vm_compute; reflexivity|]. split; [reflexivity|].
  split; [vm_compute; reflexivity|].
  eexists. eexists. vm_compute. reflexivity.
Qed.

(** ** Claims about [expand_dip_boundaries] *)

(** C10 at the baseline [-1e-9]: the divisor [baseline + 1e-9] on line 224 is
    zero and the depth is positive, so without numpy the call raises
    [ZeroDivisionError] instead of returning a pair; with numpy it returns
    [(1, 1)]. *)
Lemma C10_zero_divisor :
  expand_dip_boundaries false [0; -1; 0]%Q 1 (- (1 # 1000000000)) (3 # 10)
    = Raise ZeroDivisionError
  /\ expand_dip_boundaries true [0; -1; 0]%Q 1 (- (1 # 1000000000)) (3 # 10)
    = Ok (1, 1).
Proof. split; vm_compute; reflexivity. Qed.

(** X1: The bounds of C10 wherever the quotient of line 224 is defined: with
    numpy, or for a baseline other than [-1e-9], or for a minimum that is not
    below the baseline, [expand_dip_boundaries] returns a pair
    [(start, end)] with [0 <= start <= min_idx <= end <= N - 1]. *)
Theorem expand_dip_boundaries_within (np : bool) (x : list Q) (min_idx : Z)
    (baseline threshold_factor : Q) :
  0 <= min_idx < len x ->
  np = true \/ ~ (baseline + eps9 == 0)%Q \/ (baseline - at_ x min_idx <= 0)%Q ->
  exists start end_,
    expand_dip_boundaries np x min_idx baseline threshold_factor = Ok (start, end_)
    /\ 0 <= start /\ start <= min_idx /\ min_idx <= end_ /\ end_ <= len x - 1.
Proof.
  intros Hi Hdef.
  destruct (expand_returns np x min_idx baseline threshold_factor Hdef)
    as (s & e & E).
  exists s, e. split; [exact E|].
  exact (expand_bounds np x min_idx baseline threshold_factor s e Hi E).
Qed.

Lemma expand_dip_boundaries_within_witness :
  exists start end_,
    expand_dip_boundaries false [5; 5; 4; 3; 5 # 2; 3; 4; 5; 5]%Q 4 5 (3 # 10)
      = Ok (start, end_)
    /\ 0 <= start /\ start <= 4 /\ 4 <= end_ /\ end_ <= 9 - 1.
Proof.
  apply (expand_dip_boundaries_within false
           [5; 5; 4; 3; 5 # 2; 3; 4; 5; 5]%Q 4 5 (3 # 10)).
  - unfold len. cbn. lia.
  - right. left. vm_compute. discriminate.
Defined.

(** X2: Every segment that [find_all_dips] grows from a minimum of the smoothed
    series and hands to [detect_dip] meets the bounds precondition of
    [detect_dip] on the original series and holds its minimum. *)
Theorem candidate_segments_valid (np : bool) (series x_smooth : list Q)
    (min_prom : Q) (prominence_range : Z) (m : minimum)
    (local_baseline : Q) (start end_ : Z) :
  len x_smooth = len series ->
  In m (find_local_minima_scaled x_smooth min_prom prominence_range) ->
  expand_dip_boundaries np x_smooth (min_index m) local_baseline (3 # 10)
    = Ok (start, end_) ->
  valid_bounds (len series) start end_ /\ start <= min_index m <= end_.
Proof.
  intros Hlen Hin Hex.
  apply (expanded_segment_valid series np x_smooth m local_baseline (3 # 10));
    try assumption.
  pose proof (find_local_minima_inside x_smooth min_prom prominence_range) as H.
  rewrite Forall_forall in H. now apply H.
Qed.

Lemma candidate_segments_valid_witness :
  valid_bounds 6 3 5 /\ 3 <= 5 <= 5.
Proof.
  apply (candidate_segments_valid false [5; 5; 5; 4; 3; 2]%Q [5; 5; 5; 4; 3; 2]%Q
           0 1 (5, 2%Q, 3%Q) 5 3 5).
  - reflexivity.
  - vm_compute. left. reflexivity.
  - vm_compute. reflexivity.
Defined.

(** * Further properties of the classifier *)

(** ** Slices and least elements *)

Lemma clip_index_inside (n i : Z) : 0 <= i <= n -> clip_index n i = i.
Proof.
  intros H. unfold clip_index.
  destruct (i <? 0) eqn:E; [apply Z.ltb_lt in E; lia | lia].
Qed.

Lemma slice_inside {A : Type} (l : list A) (lo hi : Z) :
  0 <= lo <= hi -> hi <= len l ->
  slice l lo hi = firstn (Z.to_nat (hi - lo)) (skipn (Z.to_nat lo) l).
Proof.
  intros H1 H2. unfold slice. cbv zeta.
  rewrite !clip_index_inside by lia. reflexivity.
Qed.

Lemma slice_len {A : Type} (l : list A) (lo hi : Z) :
  0 <= lo <= hi -> hi <= len l -> len (slice l lo hi) = hi - lo.
Proof.
  intros H1 H2. rewrite slice_inside by assumption.
  unfold len in *. rewrite length_firstn, length_skipn. lia.
Qed.

Lemma slice_at (l : list Q) (lo hi i : Z) :
  0 <= lo <= hi -> hi <= len l -> 0 <= i < hi - lo ->
  at_ (slice l lo hi) i = at_ l (lo + i).
Proof.
  intros H1 H2 Hi. rewrite slice_inside by assumption. unfold at_.
  rewrite nth_firstn.
  assert ((Z.to_nat i <? Z.to_nat (hi - lo))%nat = true) as ->
    by (apply Nat.ltb_lt; lia).
  rewrite nth_skipn. f_equal. lia.
Qed.

Lemma at_In (l : list Q) (i : Z) : 0 <= i < len l -> In (at_ l i) l.
Proof. intros H. unfold at_. apply nth_In. unfold len in H. lia. Qed.

Lemma In_at (l : list Q) (v : Q) :
  In v l -> exists i, 0 <= i < len l /\ at_ l i = v.
Proof.
  intros H. apply (In_nth l v 0%Q) in H. destruct H as (n & Hn & E).
  exists (Z.of_nat n). unfold at_, len. rewrite Nat2Z.id. split; [lia | exact E].
Qed.

Lemma fold_pymin_least (t : list Q) (x v : Q) :
  v = x \/ In v t -> (fold_left pymin t x <= v)%Q.
Proof.
  revert x. induction t as [|y t IH]; intros x H; cbn.
  - destruct H as [-> | []]. lra.
  - destruct H as [-> | [-> | H]].
    + pose proof (fold_pymin_le t (pymin x y)).
      destruct (pymin_cases x y) as [[E ?] | [E ?]]; rewrite E in *; lra.
    + pose proof (fold_pymin_le t (pymin x v)).
      destruct (pymin_cases x v) as [[E ?] | [E ?]]; rewrite E in *; lra.
    + apply IH. now right.
Qed.

Lemma fold_pymin_In (t : list Q) (x : Q) :
  fold_left pymin t x = x \/ In (fold_left pymin t x) t.
Proof.
  revert x. induction t as [|y t IH]; intros x; cbn; [now left|].
  destruct (IH (pymin x y)) as [E | H]; [|right; now right].
  rewrite E. unfold pymin. destruct (Qltb y x); [right; now left | now left].
Qed.

(** [min(l)] is below every element of [l] and is one of them. *)
Lemma list_min_least (l : list Q) (v : Q) : In v l -> (list_min l <= v)%Q.
Proof.
  destruct l as [|x t]; [intros []|]. cbn [list_min]. intros [<- | H].
  - apply fold_pymin_least. now left.
  - apply fold_pymin_least. now right.
Qed.

Lemma list_min_In (l : list Q) : l <> [] -> In (list_min l) l.
Proof.
  destruct l as [|x t]; [congruence|]. intros _. cbn [list_min].
  destruct (fold_pymin_In t x) as [-> | H]; [now left | now right].
Qed.

(** [l.index(v)] for an element of [l]: the first position holding a value
    equal to [v]. *)
Lemma index_first (l : list Q) (v : Q) :
  In v l ->
  0 <= index l v < len l
  /\ (at_ l (index l v) == v)%Q
  /\ forall j, 0 <= j < index l v -> ~ (at_ l j == v)%Q.
Proof.
  induction l as [|x t IH]; [intros []|]. intros Hin. cbn [index].
  destruct (Qeqb x v) eqn:E.
  - apply Qeqb_true in E. split; [unfold len; cbn; lia|].
    split; [exact E|]. intros j Hj. lia.
  - apply Qeqb_false in E.
    destruct Hin as [-> | Hin]; [exfalso; apply E; reflexivity|].
    destruct (IH Hin) as (Hr & Hat & Hfirst).
    assert (len (x :: t) = 1 + len t) as Hlen
      by (unfold len; cbn [List.length]; lia).
    split; [lia|]. split.
    + unfold at_ in *. replace (Z.to_nat (1 + index t v))
        with (S (Z.to_nat (index t v))) by lia. exact Hat.
    + intros j Hj. destruct (Z.eq_dec j 0) as [-> | Hne]; [exact E|].
      specialize (Hfirst (j - 1) ltac:(lia)).
      unfold at_ in *. replace (Z.to_nat j) with (S (Z.to_nat (j - 1))) by lia.
      exact Hfirst.
Qed.

(** ** What the full record holds *)

Section RecordFacts.

Variable M : MathLib.
Variable np : bool.

Variable series : list Q.
Variables start end_ pre_window post_window min_width : Z.
Variables k min_abs_depth : Q.
Variable require_recovery : bool.
Variable n0 : Z.

Local Abbreviation call :=
  (detect_dip M np series start end_ pre_window post_window min_width k
              min_abs_depth require_recovery n0).

(** The remaining fields of a returned full record (lines 538-573, 619-623 and
    657-660). *)
Lemma detect_dip_more (b : bool) (f : full_metrics) :
  call = Ok (b, Metrics f) ->
  let pre := pre_of series start pre_window in
  let post := post_of series end_ post_window in
  let segment := slice series start (end_ + 1) in
  let local_ctx := local_ctx_of series start end_ pre_window post_window min_width in
  let rest := slice_to series start ++ slice_from series (end_ + 1) in
  let global_ctx := if len rest =? 0 then series else rest in
  m_local_median f = _trimmed_mean local_ctx
  /\ m_global_median f = _trimmed_mean global_ctx
  /\ alpha_of M (len series) n0 = Ok (m_alpha f)
  /\ m_baseline f =
       (if m_is_ongoing f || Qltb (m_global_median f) (m_local_median f)
        then pymax (m_local_median f) (m_global_median f)
        else m_alpha f * m_global_median f
             + (1 - m_alpha f) * m_local_median f)%Q
  /\ m_seg_min f = list_min segment
  /\ m_seg_min_index f =
       start + (if np then np_argmin segment else index segment (list_min segment))
  /\ m_prominence f =
       (((if 0 <? len pre then _trimmed_mean pre else m_baseline f)
         + (if 0 <? len post then _trimmed_mean post else m_baseline f)) / 2
        - m_seg_min f)%Q
  /\ m_area f = sum (map (fun v => m_baseline f - v)%Q segment)
  /\ m_reason f =
       (if negb (Qleb (m_depth_threshold f) (m_depth f))
        then Some "depth_below_threshold"%string
        else if require_recovery && negb (m_recovered f)
             then Some "no_recovery"%string
             else None).
Proof.
  unfold detect_dip.
  destruct ((start <? 0) || (len series <=? end_) || (end_ <? start));
    [discriminate|].
  cbv zeta. destruct (end_ - start + 1 <? min_width); [discriminate|].
  destruct (alpha_of M (len series) n0) as [alpha | e]; [|discriminate].
  cbn [bind].
  destruct (ref_of np (pre_of series start pre_window) _)
    as [left_ref | e] eqn:El; [|discriminate].
  cbn [bind].
  destruct (ref_of np (post_of series end_ post_window) _)
    as [right_ref | e] eqn:Er; [|discriminate].
  cbn [bind]. apply ref_of_value in El, Er. subst left_ref right_ref.
  intros [= <- <-]. cbn. repeat split; reflexivity.
Qed.

(** X3: the robust scale of a full record is strictly positive, and the depth
    threshold is the larger of [min_abs_depth] and [k * local_mad]. *)
Theorem full_record_scale_positive (b : bool) (f : full_metrics) :
  call = Ok (b, Metrics f) ->
  (0 < m_local_mad f)%Q
  /\ (min_abs_depth <= m_depth_threshold f)%Q
  /\ (k * m_local_mad f <= m_depth_threshold f)%Q
  /\ (m_depth_threshold f = min_abs_depth
      \/ m_depth_threshold f = (k * m_local_mad f)%Q).
Proof.
  intros Hcall. apply detect_dip_fields in Hcall. cbv zeta in Hcall.
  destruct Hcall as (_ & _ & _ & _ & _ & _ & _ & Hmad & Ht & _).
  split; [rewrite Hmad; apply local_mad_of_pos|].
  rewrite Ht.
  destruct (pymax_cases min_abs_depth (k * m_local_mad f)) as [[-> H] | [-> H]].
  - repeat split; [lra | lra | now right].
  - repeat split; [lra | lra | now left].
Qed.

(** X4: the verdict and the reason of a full record: [is_dip] is true exactly
    when no reason is attached; the reason is [depth_below_threshold] exactly
    when the depth is below the threshold and [no_recovery] exactly when the
    depth test passed and the recovery check failed; with
    [require_recovery = False] the record always says [recovered = True]. *)
Theorem full_record_verdict_reason (b : bool) (f : full_metrics) :
  call = Ok (b, Metrics f) ->
  (b = true <-> m_reason f = None)
  /\ (b = true <->
      (m_depth_threshold f <= m_depth f)%Q /\ m_recovered f = true)
  /\ (m_reason f = Some "depth_below_threshold"%string
      <-> (m_depth f < m_depth_threshold f)%Q)
  /\ (m_reason f = Some "no_recovery"%string
      <-> (m_depth_threshold f <= m_depth f)%Q /\ m_recovered f = false)
  /\ (require_recovery = false -> m_recovered f = true).
Proof.
  intros Hcall.
  pose proof (detect_dip_more b f Hcall) as Hmore. cbv zeta in Hmore.
  destruct Hmore as (_ & _ & _ & _ & _ & _ & _ & _ & Hreason).
  apply detect_dip_fields in Hcall. cbv zeta in Hcall.
  destruct Hcall as (_ & _ & _ & _ & _ & _ & _ & _ & _ & _ & Hr & Hv & _).
  assert (require_recovery = false -> m_recovered f = true) as Hoff.
  { intros E. rewrite Hr, E. reflexivity. }
  rewrite Hreason, Hv.
  destruct (Qleb (m_depth_threshold f) (m_depth f)) eqn:Ep;
    [apply Qleb_true in Ep | apply Qleb_false in Ep];
    destruct require_recovery; destruct (m_recovered f) eqn:Er;
    cbn [negb andb];
    try (specialize (Hoff eq_refl); discriminate Hoff);
    repeat split; intros;
    repeat match goal with H : _ /\ _ |- _ => destruct H end;
    try reflexivity; try assumption; try congruence; try lra.
Qed.

End RecordFacts.

Lemma full_record_scale_positive_witness :
  match detect_dip_defaults approx_math true
          [5; 5; 4; 3; 5 # 2; 3; 4; 5; 5]%Q 3 4 with
  | Ok (_, Metrics f) =>
      (0 < m_local_mad f)%Q
      /\ (0 <= m_depth_threshold f)%Q
      /\ ((1 # 4) * m_local_mad f <= m_depth_threshold f)%Q
      /\ (m_depth_threshold f = 0%Q
          \/ m_depth_threshold f = ((1 # 4) * m_local_mad f)%Q)
  | _ => False
  end.
Proof.
  unfold detect_dip_defaults.
  destruct (detect_dip_returns approx_math true
              [5; 5; 4; 3; 5 # 2; 3; 4; 5; 5]%Q 3 4 50 50 2 (1 # 4) 0 true 200)
    as (b & f & E).
  - unfold valid_bounds, len. cbn. lia.
  - lia.
  - lia.
  - reflexivity.
  - rewrite E.
    exact (full_record_scale_positive approx_math true _ 3 4 50 50 2 (1 # 4) 0
             true 200 b f E).
Defined.

Lemma full_record_verdict_reason_witness :
  match detect_dip_defaults approx_math true
          [5; 5; 4; 3; 5 # 2; 3; 4; 5; 5]%Q 3 4 with
  | Ok (b, Metrics f) =>
      (b = true <-> m_reason f = None)
      /\ (b = true <->
          (m_depth_threshold f <= m_depth f)%Q /\ m_recovered f = true)
      /\ (m_reason f = Some "depth_below_threshold"%string
          <-> (m_depth f < m_depth_threshold f)%Q)
      /\ (m_reason f = Some "no_recovery"%string
          <-> (m_depth_threshold f <= m_depth f)%Q /\ m_recovered f = false)
      /\ (true = false -> m_recovered f = true)
  | _ => False
  end.
Proof.
  unfold detect_dip_defaults.
  destruct (detect_dip_returns approx_math true
              [5; 5; 4; 3; 5 # 2; 3; 4; 5; 5]%Q 3 4 50 50 2 (1 # 4) 0 true 200)
    as (b & f & E).
  - unfold valid_bounds, len. cbn. lia.
  - lia.
  - lia.
  - reflexivity.
  - rewrite E.
    exact (full_record_verdict_reason approx_math true _ 3 4 50 50 2 (1 # 4) 0
             true 200 b f E).
Defined.

(** X5: [seg_min] is the least sample of the segment and [seg_min_index] is the
    first position of the segment that holds it, with numpy ([np.argmin]) and
    without ([segment.index]). *)
Theorem seg_min_is_least (M : MathLib) (np : bool) (series : list Q)
    (start end_ pre_window post_window min_width : Z) (k min_abs_depth : Q)
    (require_recovery : bool) (n0 : Z) (b : bool) (f : full_metrics) :
  detect_dip M np series start end_ pre_window post_window min_width k
             min_abs_depth require_recovery n0 = Ok (b, Metrics f) ->
  start <= m_seg_min_index f <= end_
  /\ (at_ series (m_seg_min_index f) == m_seg_min f)%Q
  /\ (forall i, start <= i <= end_ -> (m_seg_min f <= at_ series i)%Q)
  /\ (forall i, start <= i < m_seg_min_index f ->
                (m_seg_min f < at_ series i)%Q).
Proof.
  intros Hcall.
  pose proof (detect_dip_more _ _ _ _ _ _ _ _ _ _ _ _ _ _ Hcall) as Hmore.
  cbv zeta in Hmore.
  destruct Hmore as (_ & _ & _ & _ & Hmin & Hidx & _).
  apply detect_dip_fields in Hcall. cbv zeta in Hcall.
  destruct Hcall as ((H0 & Hse & HeN) & _).
  set (segment := slice series start (end_ + 1)) in *.
  assert (len segment = end_ - start + 1) as Hlen
    by (unfold segment; rewrite slice_len; lia).
  assert (forall i, 0 <= i < end_ - start + 1 ->
                    at_ segment i = at_ series (start + i)) as Hat
    by (intros i Hi; unfold segment; apply slice_at; lia).
  assert (segment <> []) as Hne.
  { intros E. rewrite E in Hlen. unfold len in Hlen. cbn in Hlen. lia. }
  assert (m_seg_min_index f = start + index segment (list_min segment)) as Hidx'.
  { rewrite Hidx. destruct np; [|reflexivity]. now rewrite np_argmin_index. }
  destruct (index_first segment (list_min segment) (list_min_In segment Hne))
    as (Hr & Hval & Hfirst).
  rewrite Hidx', Hmin. rewrite Hlen in Hr.
  split; [lia|]. split; [|split].
  - rewrite <- Hat by lia. exact Hval.
  - intros i Hi. replace i with (start + (i - start)) by lia.
    rewrite <- Hat by lia. apply list_min_least, at_In. lia.
  - intros i Hi. replace i with (start + (i - start)) by lia.
    rewrite <- Hat by lia.
    assert (list_min segment <= at_ segment (i - start))%Q as Hle
      by (apply list_min_least, at_In; lia).
    specialize (Hfirst (i - start) ltac:(lia)).
    apply Qle_lt_or_eq in Hle. destruct Hle as [Hlt | Heq]; [exact Hlt|].
    exfalso. apply Hfirst. symmetry. exact Heq.
Qed.

Lemma seg_min_is_least_witness :
  match detect_dip_defaults approx_math false
          [5; 5; 4; 3; 5 # 2; 3; 4; 5; 5]%Q 2 6 with
  | Ok (_, Metrics f) =>
      2 <= m_seg_min_index f <= 6
      /\ (at_ [5; 5; 4; 3; 5 # 2; 3; 4; 5; 5]%Q (m_seg_min_index f)
          == m_seg_min f)%Q
      /\ (forall i, 2 <= i <= 6 ->
            (m_seg_min f <= at_ [5; 5; 4; 3; 5 # 2; 3; 4; 5; 5]%Q i)%Q)
      /\ (forall i, 2 <= i < m_seg_min_index f ->
            (m_seg_min f < at_ [5; 5; 4; 3; 5 # 2; 3; 4; 5; 5]%Q i)%Q)
  | _ => False
  end.
Proof.
  unfold detect_dip_defaults.
  destruct (detect_dip_returns approx_math false
              [5; 5; 4; 3; 5 # 2; 3; 4; 5; 5]%Q 2 6 50 50 2 (1 # 4) 0 true 200)
    as (b & f & E).
  - unfold valid_bounds, len. cbn. lia.
  - lia.
  - lia.
  - reflexivity.
  - rewrite E.
    exact (seg_min_is_least approx_math false _ 2 6 50 50 2 (1 # 4) 0 true 200
             b f E).
Defined.

(** ** The whole-series segment and saturated windows *)

Lemma clip_index_range (n i : Z) : 0 <= n -> 0 <= clip_index n i <= n.
Proof.
  intros H. unfold clip_index.
  destruct (i <? 0) eqn:E; [lia | apply Z.ltb_ge in E; lia].
Qed.

Lemma len_nonneg {A : Type} (l : list A) : 0 <= len l.
Proof. unfold len. lia. Qed.

Lemma slice_to_zero {A : Type} (l : list A) (lo : Z) : slice l lo 0 = [].
Proof.
  unfold slice. cbv zeta.
  pose proof (clip_index_range (len l) lo (len_nonneg l)).
  pose proof (clip_index_range (len l) 0 (len_nonneg l)).
  assert (clip_index (len l) 0 = 0) as ->.
  { unfold clip_index. cbn. pose proof (len_nonneg l). lia. }
  replace (Z.to_nat (0 - clip_index (len l) lo)) with 0%nat by lia.
  reflexivity.
Qed.

Lemma slice_from_end {A : Type} (l : list A) (hi : Z) : slice l (len l) hi = [].
Proof.
  unfold slice. cbv zeta.
  assert (clip_index (len l) (len l) = len l) as ->
    by (apply clip_index_inside; pose proof (len_nonneg l); lia).
  unfold len at 3. rewrite Nat2Z.id, skipn_all. apply firstn_nil.
Qed.

(** X7: A segment that covers the whole series has no context: the record is
    ongoing and recovered, local and global centre are both the trimmed mean
    of the series itself, the baseline is that value, the prominence equals
    the depth, and the verdict is the depth test alone. *)
Theorem whole_series_segment (M : MathLib) (np : bool) (series : list Q)
    (pre_window post_window min_width : Z) (k min_abs_depth : Q)
    (require_recovery : bool) (n0 : Z) (b : bool) (f : full_metrics) :
  detect_dip M np series 0 (len series - 1) pre_window post_window min_width k
             min_abs_depth require_recovery n0 = Ok (b, Metrics f) ->
  m_is_ongoing f = true
  /\ m_recovered f = true
  /\ m_local_median f = _trimmed_mean series
  /\ m_global_median f = _trimmed_mean series
  /\ m_baseline f = _trimmed_mean series
  /\ (m_prominence f == m_depth f)%Q
  /\ b = Qleb (m_depth_threshold f) (m_depth f).
Proof.
  intros Hcall.
  pose proof (detect_dip_more _ _ _ _ _ _ _ _ _ _ _ _ _ _ Hcall) as Hmore.
  cbv zeta in Hmore.
  destruct Hmore as (Hlm & Hgm & _ & Hbase & _ & _ & Hprom & _).
  apply detect_dip_fields in Hcall. cbv zeta in Hcall.
  destruct Hcall as (_ & _ & _ & _ & _ & _ & Hd & _ & _ & Ho & Hr & Hv & _).
  assert (pre_of series 0 pre_window = []) as Hpre
    by (unfold pre_of; apply slice_to_zero).
  assert (post_of series (len series - 1) post_window = []) as Hpost.
  { unfold post_of. replace (len series - 1 + 1) with (len series) by lia.
    apply slice_from_end. }
  assert (slice_to series 0 ++ slice_from series (len series - 1 + 1) = [])
    as Hrest.
  { unfold slice_to, slice_from. rewrite slice_to_zero.
    replace (len series - 1 + 1) with (len series) by lia.
    now rewrite slice_from_end. }
  assert (m_is_ongoing f = true) as Hong.
  { rewrite Ho. unfold is_ongoing_of. apply orb_true_iff. left.
    apply Z.leb_le. lia. }
  assert (m_recovered f = true) as Hrec.
  { rewrite Hr, Hpost. cbn. now rewrite andb_false_r. }
  assert (m_local_median f = _trimmed_mean series) as Hlm'.
  { rewrite Hlm. unfold local_ctx_of. cbv zeta.
    rewrite Hpre, Hpost, Hrest.
    destruct (is_ongoing_of series (len series - 1) post_window); cbn [app].
    - assert ((len (@nil Q) <? Z.max 5 min_width) = true) as ->
        by (apply Z.ltb_lt; unfold len; cbn; lia).
      reflexivity.
    - assert ((len (@nil Q) <? Z.max 5 min_width) = true) as ->
        by (apply Z.ltb_lt; unfold len; cbn; lia).
      reflexivity. }
  assert (m_global_median f = _trimmed_mean series) as Hgm'.
  { rewrite Hgm, Hrest. reflexivity. }
  assert (m_baseline f = _trimmed_mean series) as Hbase'.
  { rewrite Hbase, Hong, Hlm', Hgm'. cbn [orb]. unfold pymax.
    assert (Qltb (_trimmed_mean series) (_trimmed_mean series) = false) as ->
      by (apply Qltb_false; lra).
    reflexivity. }
  repeat split; try assumption.
  - rewrite Hprom, Hpre, Hpost, Hd. cbn. field.
  - rewrite Hv, Hrec. now rewrite andb_true_r.
Qed.

Lemma whole_series_segment_witness :
  match detect_dip_defaults approx_math true [5; 4; 3; 4; 5]%Q 0 4 with
  | Ok (b, Metrics f) =>
      m_is_ongoing f = true
      /\ m_recovered f = true
      /\ m_local_median f = _trimmed_mean [5; 4; 3; 4; 5]%Q
      /\ m_global_median f = _trimmed_mean [5; 4; 3; 4; 5]%Q
      /\ m_baseline f = _trimmed_mean [5; 4; 3; 4; 5]%Q
      /\ (m_prominence f == m_depth f)%Q
      /\ b = Qleb (m_depth_threshold f) (m_depth f)
  | _ => False
  end.
Proof.
  unfold detect_dip_defaults.
  destruct (detect_dip_returns approx_math true [5; 4; 3; 4; 5]%Q 0 4
              50 50 2 (1 # 4) 0 true 200) as (b & f & E).
  - unfold valid_bounds, len. cbn. lia.
  - lia.
  - lia.
  - reflexivity.
  - rewrite E.
    exact (whole_series_segment approx_math true [5; 4; 3; 4; 5]%Q
             50 50 2 (1 # 4) 0 true 200 b f E).
Defined.

Lemma recovery_check_saturated (x post : list Q) (end_ q1 q2 : Z)
    (baseline local_mad depth depth_threshold seg_min : Q) :
  0 <= len x - 1 - end_ ->
  len x - 1 - end_ <= q1 -> len x - 1 - end_ <= q2 ->
  recovery_check x post end_ q1 baseline local_mad depth depth_threshold seg_min
  = recovery_check x post end_ q2 baseline local_mad depth depth_threshold seg_min.
Proof.
  intros H0 H1 H2. unfold recovery_check. cbv zeta.
  replace (Z.min (len x) (end_ + 1 + q1 * 2)) with (len x) by lia.
  replace (Z.min (len x) (end_ + 1 + q2 * 2)) with (len x) by lia.
  reflexivity.
Qed.

(** X8: Context windows that already reach both ends of the series are
    saturated: any two choices of [pre_window >= start] and
    [post_window >= N - 1 - end] give the same result. *)
Theorem windows_saturate (M : MathLib) (np : bool) (series : list Q)
    (start end_ p1 p2 q1 q2 min_width : Z) (k min_abs_depth : Q)
    (require_recovery : bool) (n0 : Z) :
  start <= p1 -> start <= p2 ->
  len series - 1 - end_ <= q1 -> len series - 1 - end_ <= q2 ->
  detect_dip M np series start end_ p1 q1 min_width k min_abs_depth
             require_recovery n0
  = detect_dip M np series start end_ p2 q2 min_width k min_abs_depth
               require_recovery n0.
Proof.
  intros Hp1 Hp2 Hq1 Hq2. unfold detect_dip.
  destruct ((start <? 0) || (len series <=? end_) || (end_ <? start)) eqn:E;
    [reflexivity|].
  apply bounds_test_false in E. destruct E as (H0 & Hse & HeN).
  assert (pre_of series start p1 = pre_of series start p2) as Hpre.
  { unfold pre_of. now rewrite !Z.max_l by lia. }
  assert (post_of series end_ q1 = post_of series end_ q2) as Hpost.
  { unfold post_of. now rewrite !Z.min_l by lia. }
  assert (is_ongoing_of series end_ q1 = is_ongoing_of series end_ q2) as Hong.
  { unfold is_ongoing_of. now rewrite Hpost. }
  assert (local_ctx_of series start end_ p1 q1 min_width
          = local_ctx_of series start end_ p2 q2 min_width) as Hctx.
  { unfold local_ctx_of. cbv zeta. now rewrite Hpre, Hpost, Hong. }
  cbv zeta. rewrite Hpre, Hpost, Hong, Hctx.
  destruct (end_ - start + 1 <? min_width); [reflexivity|].
  destruct (alpha_of M (len series) n0) as [alpha | e]; [|reflexivity].
  cbn [bind].
  rewrite (recovery_check_saturated series (post_of series end_ q2) end_ q1 q2)
    by lia.
  reflexivity.
Qed.

Lemma windows_saturate_witness :
  detect_dip approx_math true [5; 5; 4; 3; 5 # 2; 3; 4; 5; 5]%Q 3 4
             3 4 2 (1 # 4) 0 true 200
  = detect_dip approx_math true [5; 5; 4; 3; 5 # 2; 3; 4; 5; 5]%Q 3 4
               50 50 2 (1 # 4) 0 true 200.
Proof.
  apply windows_saturate; unfold len; cbn; lia.
Defined.

(** * Further properties of the minimum finder *)

Section MinimaReported.

Variable x : list Q.
Variable min_prominence : Q.
Variable proximity_range : Z.

(** What the finder promises of a reported triple: an index that is never
    0, the sample at that index, and a prominence of at least
    [min_prominence]. *)
Definition reported (m : minimum) : Prop :=
  1 <= min_index m <= len x - 1
  /\ snd (fst m) = at_ x (min_index m)
  /\ (min_prominence <= snd m)%Q.

(** Minima found so far: strictly increasing indices, all below [i]. *)
Definition found_below (i : Z) (minima : list minimum) : Prop :=
  StronglySorted Z.lt (map min_index minima)
  /\ Forall (fun m => reported m /\ min_index m < i) minima.

Lemma sorted_snoc (l : list Z) (a : Z) :
  StronglySorted Z.lt l -> Forall (fun y => y < a) l ->
  StronglySorted Z.lt (l ++ [a]).
Proof.
  induction l as [|y t IH]; intros Hs Hf; cbn.
  - constructor; constructor.
  - inversion Hs; subst. inversion Hf; subst. constructor.
    + now apply IH.
    + apply Forall_app. split; [assumption | now constructor].
Qed.

Lemma found_below_weaken (i i' : Z) (minima : list minimum) :
  i <= i' -> found_below i minima -> found_below i' minima.
Proof.
  intros Hi [Hs Hf]. split; [assumption|].
  eapply Forall_impl; [|exact Hf]. cbn. intros m [Hr Hm]. split; [assumption | lia].
Qed.

Lemma found_below_snoc (i i' : Z) (minima : list minimum) (m : minimum) :
  found_below i minima -> reported m -> i <= min_index m < i' ->
  found_below i' (minima ++ [m]).
Proof.
  intros [Hs Hf] Hr Hm. split.
  - rewrite map_app. cbn [map]. apply sorted_snoc; [assumption|].
    apply Forall_map. eapply Forall_impl; [|exact Hf]. cbn. intros a [_ Ha]. lia.
  - apply Forall_app. split.
    + eapply Forall_impl; [|exact Hf]. cbn. intros a [Ha Hlt].
      split; [assumption | lia].
    + constructor; [|constructor]. split; [assumption | lia].
Qed.

Lemma scan_step_reported (i : Z) :
  1 <= i < len x - 1 ->
  let '(found, i') := scan_step x min_prominence proximity_range i in
  i < i' <= len x
  /\ match found with
     | Some m => reported m /\ i <= min_index m < i'
     | None => True
     end.
Proof.
  intros Hi. unfold scan_step.
  destruct (Qleb (at_ x i) (at_ x (i - 1)) && Qleb (at_ x i) (at_ x (i + 1)));
    [|split; [lia | exact I]].
  cbv zeta.
  pose proof (plateau_end_bounds x (Z.to_nat (len x)) i i ltac:(lia)) as Hj.
  set (j := plateau_end x (Z.to_nat (len x)) i i) in *.
  split; [lia|].
  match goal with
  | |- match (if ?c then _ else None) with _ => _ end => destruct c
  end; [|exact I].
  match goal with
  | |- match (if ?c then _ else None) with _ => _ end => destruct c eqn:Ep
  end; [|exact I].
  apply Qleb_true in Ep.
  assert (i <= (i + j) / 2) by (apply Z.div_le_lower_bound; lia).
  assert ((i + j) / 2 <= j) by (apply Z.div_le_upper_bound; lia).
  unfold reported, min_index. cbn [fst snd].
  repeat split; try lia; try reflexivity. exact Ep.
Qed.

Lemma scan_reported (fuel : nat) (i : Z) (minima : list minimum) :
  1 <= i -> found_below i minima ->
  found_below (Z.max i (len x))
              (scan x fuel min_prominence proximity_range i minima).
Proof.
  revert i minima. induction fuel as [|fuel IH]; intros i minima Hi Hm;
    cbn [scan].
  - apply (found_below_weaken i); [lia | assumption].
  - destruct (i <? len x - 1) eqn:E;
      [|apply (found_below_weaken i); [lia | assumption]].
    apply Z.ltb_lt in E.
    pose proof (scan_step_reported i ltac:(lia)) as Hs.
    destruct (scan_step x min_prominence proximity_range i) as [found i'].
    destruct Hs as [Hlt Hfound].
    replace (Z.max i (len x)) with (Z.max i' (len x)) by lia.
    apply IH; [lia|].
    destruct found as [m|].
    + destruct Hfound as [Hr Hrange]. now apply (found_below_snoc i).
    + apply (found_below_weaken i); [lia | assumption].
Qed.

Lemma tail_minimum_reported (minima : list minimum) :
  found_below (len x) minima ->
  found_below (len x)
              (tail_minimum x min_prominence proximity_range minima).
Proof.
  intros Hm. unfold tail_minimum.
  destruct (3 <=? len x) eqn:E3; [|assumption]. apply Z.leb_le in E3.
  cbv zeta.
  destruct (Qltb _ _); [|assumption].
  destruct (1 <=? _); [|assumption].
  match goal with |- context [Qleb min_prominence ?p] => set (prom := p) end.
  destruct (Qleb min_prominence prom) eqn:Ep; [|assumption].
  cbn [andb].
  destruct (existsb (fun m => min_index m =? len x - 1) minima) eqn:Ex;
    [assumption|].
  cbn [negb]. apply Qleb_true in Ep.
  destruct Hm as [Hs Hf]. split.
  - rewrite map_app. cbn [map]. apply sorted_snoc; [assumption|].
    apply Forall_map. rewrite Forall_forall in *. intros a Ha.
    destruct (Hf a Ha) as [_ Hlt].
    assert (min_index a <> len x - 1) as Hne.
    { intros Heq.
      assert (existsb (fun m => min_index m =? len x - 1) minima = true)
        as Hex by (apply existsb_exists; exists a; split;
                   [assumption | now apply Z.eqb_eq]).
      congruence. }
    unfold min_index at 2. cbn [fst]. lia.
  - apply Forall_app. split; [assumption|]. constructor; [|constructor].
    unfold reported, min_index. cbn [fst snd].
    repeat split; try lia; try reflexivity. exact Ep.
Qed.

(** X9: The finder reports nothing on fewer than 3 samples; otherwise its triples
    come in strictly increasing index order (no index twice), each with an
    index in [1, N - 1], the sample at that index, and a prominence of at
    least [min_prominence]. *)
Theorem find_local_minima_reports :
  let minima := find_local_minima x min_prominence proximity_range in
  (len x < 3 -> minima = [])
  /\ StronglySorted Z.lt (map min_index minima)
  /\ Forall reported minima.
Proof.
  cbv zeta. unfold find_local_minima.
  destruct (len x <? 3) eqn:E.
  - repeat split; constructor.
  - apply Z.ltb_ge in E. split; [lia|].
    assert (found_below (len x)
              (tail_minimum x min_prominence proximity_range
                 (scan x (Z.to_nat (len x)) min_prominence proximity_range 1 [])))
      as [Hs Hf].
    { apply tail_minimum_reported.
      replace (len x) with (Z.max 1 (len x)) at 1 by lia.
      apply scan_reported; [lia|]. split; constructor. }
    split; [assumption|].
    eapply Forall_impl; [|exact Hf]. cbn. intros m [Hr _]. exact Hr.
Qed.

End MinimaReported.

(** ** Flat series *)

(** Every sample equals [c]. *)
Definition flat (c : Q) (x : list Q) : Prop := Forall (fun v => (v == c)%Q) x.

Lemma at_flat (c : Q) (x : list Q) (i : Z) :
  flat c x -> 0 <= i < len x -> (at_ x i == c)%Q.
Proof.
  intros H Hi. unfold flat in H. rewrite Forall_forall in H.
  apply H. now apply at_In.
Qed.

Lemma flat_Qleb (c a b : Q) : (a == c)%Q -> (b == c)%Q -> Qleb a b = true.
Proof. intros Ha Hb. apply Qleb_true. lra. Qed.

Lemma flat_Qltb (c a b : Q) : (a == c)%Q -> (b == c)%Q -> Qltb a b = false.
Proof. intros Ha Hb. apply Qltb_false. lra. Qed.

Lemma flat_Qeqb (c a b : Q) : (a == c)%Q -> (b == c)%Q -> Qeqb a b = true.
Proof. intros Ha Hb. apply Qeqb_true. lra. Qed.

Section FlatMinima.

Variable c : Q.
Variable x : list Q.
Hypothesis x_flat : flat c x.

Lemma plateau_end_flat (fuel : nat) (i j : Z) :
  0 <= i < len x -> 0 <= j <= len x - 1 ->
  len x - 1 - j <= Z.of_nat fuel ->
  plateau_end x fuel i j = len x - 1.
Proof.
  intros Hi. revert j. induction fuel as [|fuel IH]; intros j Hj Hf;
    cbn [plateau_end]; [lia|].
  destruct (j <? len x - 1) eqn:E.
  - apply Z.ltb_lt in E.
    rewrite (flat_Qeqb c) by (apply at_flat; [assumption | lia]).
    cbn [andb]. apply IH; lia.
  - apply Z.ltb_ge in E. cbn [andb]. lia.
Qed.

Lemma scan_step_flat (min_prominence : Q) (proximity_range i : Z) :
  1 <= i < len x - 1 ->
  scan_step x min_prominence proximity_range i = (None, len x).
Proof.
  intros Hi. unfold scan_step.
  rewrite !(flat_Qleb c) by (apply at_flat; [assumption | lia]).
  cbn [andb]. cbv zeta.
  rewrite (plateau_end_flat (Z.to_nat (len x)) i i) by lia.
  rewrite (flat_Qltb c (at_ x i) (at_ x (i - 1)))
    by (apply at_flat; [assumption | lia]).
  assert ((i =? 0) = false) as -> by (apply Z.eqb_neq; lia).
  rewrite Z.ltb_irrefl. cbn [orb andb negb].
  rewrite !andb_false_r.
  replace (len x - 1 + 1) with (len x) by lia. reflexivity.
Qed.

Lemma scan_past_end (fuel : nat) (min_prominence : Q) (proximity_range i : Z)
    (minima : list minimum) :
  len x - 1 <= i ->
  scan x fuel min_prominence proximity_range i minima = minima.
Proof.
  intros Hi. destruct fuel as [|fuel]; cbn [scan]; [reflexivity|].
  assert ((i <? len x - 1) = false) as -> by (apply Z.ltb_ge; lia).
  reflexivity.
Qed.

(** A flat series has no local minimum. *)
Lemma find_local_minima_flat (min_prominence : Q) (proximity_range : Z) :
  find_local_minima x min_prominence proximity_range = [].
Proof.
  unfold find_local_minima. destruct (len x <? 3) eqn:E; [reflexivity|].
  apply Z.ltb_ge in E.
  assert (scan x (Z.to_nat (len x)) min_prominence proximity_range 1 [] = [])
    as ->.
  { destruct (Z.to_nat (len x)) as [|fuel] eqn:Ef; [reflexivity|].
    cbn [scan].
    assert ((1 <? len x - 1) = true) as -> by (apply Z.ltb_lt; lia).
    rewrite scan_step_flat by lia. apply scan_past_end. lia. }
  unfold tail_minimum.
  assert ((3 <=? len x) = true) as -> by (apply Z.leb_le; lia).
  cbv zeta.
  rewrite (flat_Qltb c) by (apply at_flat; [assumption | lia]).
  reflexivity.
Qed.

End FlatMinima.

Lemma slice_nonempty {A : Type} (l : list A) (lo hi : Z) :
  0 <= lo < len l -> lo < hi -> slice l lo hi <> [].
Proof.
  intros Hlo Hhi E.
  assert (List.length (slice l lo hi) = 0%nat) as Hlen by now rewrite E.
  unfold slice in Hlen. cbv zeta in Hlen.
  rewrite (clip_index_inside (len l) lo) in Hlen by lia.
  assert (clip_index (len l) hi = Z.min hi (len l)) as Hc.
  { unfold clip_index. destruct (hi <? 0) eqn:E0; [|reflexivity].
    apply Z.ltb_lt in E0. lia. }
  rewrite Hc, length_firstn, length_skipn in Hlen. unfold len in *. lia.
Qed.

Lemma np_median_flat (c : Q) (l : list Q) :
  flat c l -> l <> [] -> (np_median l == c)%Q.
Proof.
  intros Hf Hne. unfold np_median. cbv zeta.
  assert (flat c (sorted l)) as Hs.
  { unfold flat in *. rewrite Forall_forall in *. intros v Hv.
    apply Hf. now apply sorted_In. }
  assert (0 < len (sorted l)) as Hlen.
  { unfold len. rewrite sorted_length. destruct l; [congruence | cbn; lia]. }
  set (n := len (sorted l)) in *.
  assert ((n =? 0) = false) as -> by (apply Z.eqb_neq; lia).
  pose proof (Z.mod_pos_bound n 2 ltac:(lia)) as Hr.
  pose proof (Z.div_mod n 2 ltac:(lia)) as Hdm.
  destruct (n mod 2 =? 1) eqn:E1.
  - apply at_flat; [assumption|]. fold n. lia.
  - apply Z.eqb_neq in E1.
    assert (at_ (sorted l) (n / 2 - 1) == c)%Q as H1
      by (apply at_flat; [assumption | fold n; lia]).
    assert (at_ (sorted l) (n / 2) == c)%Q as H2
      by (apply at_flat; [assumption | fold n; lia]).
    rewrite H1, H2. field.
Qed.

Lemma moving_median_flat (c : Q) (x out : list Q) (w : Z) :
  flat c x -> 0 < w -> moving_median x w = Ok out -> flat c out.
Proof.
  intros Hf Hw. unfold moving_median. cbv zeta.
  destruct (len x =? 0) eqn:E0; [discriminate|]. apply Z.eqb_neq in E0.
  pose proof (len_nonneg x) as Hn.
  intros [= <-].
  set (x_pad := repeat (at_ x 0) (Z.to_nat (w / 2)) ++ x
                ++ repeat (at_ x (len x - 1)) (Z.to_nat (w / 2))).
  assert (flat c x_pad) as Hpad.
  { unfold flat, x_pad. rewrite !Forall_app. repeat split.
    - apply Forall_forall. intros v Hv. apply repeat_spec in Hv. subst v.
      apply at_flat; [assumption | lia].
    - exact Hf.
    - apply Forall_forall. intros v Hv. apply repeat_spec in Hv. subst v.
      apply at_flat; [assumption | lia]. }
  assert (len x <= len x_pad) as Hlen.
  { unfold x_pad, len. rewrite !length_app. lia. }
  unfold flat. apply Forall_forall. intros v Hv.
  apply in_map_iff in Hv. destruct Hv as (i & <- & Hi).
  apply range_In in Hi. unfold _median.
  apply np_median_flat.
  - unfold flat. now apply slice_Forall.
  - apply slice_nonempty; lia.
Qed.

Section FlatDiscovery.

Variable M : MathLib.
Variable np : bool.
Variable c : Q.
Variable series : list Q.
Hypothesis series_flat : flat c series.
Hypothesis series_nonempty : 0 < len series.

Lemma scan_scale_flat (pre_window post_window min_width : Z)
    (k min_abs_depth : Q) (require_recovery : bool) (n0 smoothing_window : Z)
    (min_prominence_factor : Q) (scale_factor : Z) :
  0 < scale_factor ->
  scan_scale M np series pre_window post_window min_width k min_abs_depth
             require_recovery n0 smoothing_window min_prominence_factor
             scale_factor [] = Ok [].
Proof.
  intros Hsf. unfold scan_scale. cbv zeta.
  assert (exists x_smooth,
            (if 1 <? Z.max 1 (smoothing_window * scale_factor)
             then if np
                  then moving_median series
                         (Z.max 1 (smoothing_window * scale_factor))
                  else Ok series
             else Ok series) = Ok x_smooth
            /\ len x_smooth = len series /\ flat c x_smooth)
    as (x_smooth & -> & Hlen & Hflat).
  { destruct (1 <? _); [destruct np|].
    - destruct (moving_median series _) as [out | err] eqn:E.
      + exists out. split; [reflexivity|]. split.
        * now apply moving_median_length in E.
        * apply (moving_median_flat c series out _ series_flat) in E;
            [assumption | lia].
      + exfalso. unfold moving_median in E. cbv zeta in E.
        destruct (len series =? 0) eqn:E0; [|discriminate].
        apply Z.eqb_eq in E0. lia.
    - exists series. repeat split; assumption.
    - exists series. repeat split; assumption. }
  cbn [bind].
  assert ((len x_smooth =? 0) = false) as -> by (apply Z.eqb_neq; lia).
  match goal with
  | |- bind ?r _ = _ =>
      assert (exists g, r = Ok g) as [g ->]
        by (destruct (Qeqb _ 0); eexists; reflexivity)
  end.
  cbn [bind]. unfold sqrt_int.
  assert ((scale_factor <? 0) = false) as -> by (apply Z.ltb_ge; lia).
  cbn [bind].
  assert (Qeqb (m_sqrt M (ofZ scale_factor)) 0 = false) as ->.
  { apply Qeqb_false. intros E.
    pose proof (m_sqrt_pos M (ofZ scale_factor)) as Hpos.
    assert (0 < ofZ scale_factor)%Q by (unfold ofZ, Qlt; cbn; lia).
    specialize (Hpos H). lra. }
  cbn [bind]. unfold find_local_minima_scaled.
  rewrite (find_local_minima_flat c x_smooth Hflat). reflexivity.
Qed.

Lemma scan_scales_flat (pre_window post_window min_width : Z)
    (k min_abs_depth : Q) (require_recovery : bool) (n0 smoothing_window : Z)
    (min_prominence_factor : Q) (scale_factors : list Z) :
  Forall (fun sf => 0 < sf) scale_factors ->
  scan_scales M np series pre_window post_window min_width k min_abs_depth
              require_recovery n0 smoothing_window min_prominence_factor
              scale_factors [] = Ok [].
Proof.
  induction scale_factors as [|sf rest IH]; intros Hsf; cbn [scan_scales];
    [reflexivity|].
  inversion Hsf; subst. rewrite scan_scale_flat by assumption.
  cbn [bind]. now apply IH.
Qed.

(** X10: On a non-empty flat series [find_all_dips] returns the empty list, with
    or without numpy and for every option value, as long as each scale factor
    given explicitly is positive. *)
Theorem find_all_dips_flat (smoothing_window : Z) (min_prominence_factor : Q)
    (pre_window post_window : option Z) (min_width : Z) (k min_abs_depth : Q)
    (require_recovery : bool) (n0 max_dips : Z) (multi_scale : bool)
    (scale_factors : option (list Z)) :
  (forall given, multi_scale = true -> scale_factors = Some given ->
                 Forall (fun sf => 0 < sf) given) ->
  find_all_dips M np series smoothing_window min_prominence_factor pre_window
                post_window min_width k min_abs_depth require_recovery n0
                max_dips multi_scale scale_factors = Ok [].
Proof.
  intros Hgiven. unfold find_all_dips. cbv zeta.
  destruct (len series <? min_width); [reflexivity|].
  rewrite scan_scales_flat; [reflexivity|].
  unfold select_scale_factors. destruct multi_scale.
  - destruct scale_factors as [given|]; [now apply Hgiven|].
    destruct (200 <? len series); [|destruct (50 <? len series)];
      repeat constructor.
  - repeat constructor.
Qed.

End FlatDiscovery.

(** Scenario B of the specification: [find_all_dips([5] * 10)]. *)
Lemma find_all_dips_flat_witness :
  find_all_dips_defaults approx_math true
    [5; 5; 5; 5; 5; 5; 5; 5; 5; 5]%Q = Ok [].
Proof.
  apply (find_all_dips_flat approx_math true 5).
  - repeat constructor; reflexivity.
  - unfold len. cbn. lia.
  - intros given _ H. discriminate H.
Defined.

(** * Further properties of the boundary expander *)

Lemma find_nth {A : Type} (p : A -> bool) (l : list A) (a d : A) :
  find p l = Some a ->
  exists n, (n < List.length l)%nat /\ nth n l d = a /\ p a = true
            /\ forall m, (m < n)%nat -> p (nth m l d) = false.
Proof.
  induction l as [|y t IH]; cbn [find]; [discriminate|].
  destruct (p y) eqn:E.
  - intros [= <-]. exists 0%nat. cbn. repeat split; [lia | assumption|].
    intros m Hm. lia.
  - intros H. destruct (IH H) as (n & Hn & Hnth & Hp & Hbefore).
    exists (S n). cbn. repeat split; [lia | assumption | assumption|].
    intros [|m] Hm; [assumption|]. apply Hbefore. lia.
Qed.

Lemma range_nth (lo hi : Z) (n : nat) :
  (n < Z.to_nat (hi - lo))%nat -> nth n (range lo hi) 0 = lo + Z.of_nat n.
Proof.
  intros Hn. unfold range.
  rewrite (nth_indep _ 0 (lo + Z.of_nat 0))
    by (rewrite length_map, length_seq; exact Hn).
  rewrite (map_nth (fun i => lo + Z.of_nat i) (seq 0 (Z.to_nat (hi - lo))) 0%nat n).
  rewrite seq_nth by exact Hn. reflexivity.
Qed.

Lemma range_length_nat (lo hi : Z) :
  List.length (range lo hi) = Z.to_nat (hi - lo).
Proof. unfold range. now rewrite length_map, length_seq. Qed.

(** X11: The segment returned is the largest run around the minimum whose other
    samples stay below the crossing level: inside it, every sample apart from
    the minimum is below the level, and the sample just outside either end,
    when there is one, has reached it. *)
Theorem expanded_segment_is_maximal (np : bool) (x : list Q) (min_idx : Z)
    (baseline threshold_factor : Q) (level : option Q) (start end_ : Z) :
  0 <= min_idx < len x ->
  crossing_level_of np baseline (at_ x min_idx) threshold_factor = Ok level ->
  expand_dip_boundaries np x min_idx baseline threshold_factor
    = Ok (start, end_) ->
  (forall i, start <= i < min_idx -> reaches level (at_ x i) = false)
  /\ (forall i, min_idx < i <= end_ -> reaches level (at_ x i) = false)
  /\ (0 < start -> reaches level (at_ x (start - 1)) = true)
  /\ (end_ < len x - 1 -> reaches level (at_ x (end_ + 1)) = true).
Proof.
  intros Hi Hlevel. unfold expand_dip_boundaries. cbv zeta.
  rewrite Hlevel. cbn [bind]. intros [= <- <-].
  set (p := fun i => reaches level (at_ x i)).
  split; [|split; [|split]].
  - intros i Hrange.
    destruct (find p (rev (range 0 min_idx))) as [hit|] eqn:E.
    + destruct (find_nth p _ hit 0 E) as (n & Hn & Hnth & _ & Hbefore).
      rewrite length_rev, range_length_nat in Hn.
      rewrite rev_nth in Hnth by (rewrite range_length_nat; lia).
      rewrite range_length_nat, range_nth in Hnth by lia.
      specialize (Hbefore (Z.to_nat (min_idx - 1 - i)) ltac:(lia)).
      rewrite rev_nth in Hbefore by (rewrite range_length_nat; lia).
      rewrite range_length_nat, range_nth in Hbefore by lia.
      replace (0 + Z.of_nat (Z.to_nat (min_idx - 0)
                             - S (Z.to_nat (min_idx - 1 - i)))) with i
        in Hbefore by lia.
      exact Hbefore.
    + apply (find_none p _ E). apply -> in_rev. apply range_In. lia.
  - intros i Hrange.
    destruct (find p (range (min_idx + 1) (len x))) as [hit|] eqn:E.
    + destruct (find_nth p _ hit 0 E) as (n & Hn & Hnth & _ & Hbefore).
      rewrite range_length_nat in Hn. rewrite range_nth in Hnth by lia.
      specialize (Hbefore (Z.to_nat (i - min_idx - 1)) ltac:(lia)).
      rewrite range_nth in Hbefore by lia.
      replace (min_idx + 1 + Z.of_nat (Z.to_nat (i - min_idx - 1))) with i
        in Hbefore by lia.
      exact Hbefore.
    + apply (find_none p _ E). apply range_In. lia.
  - intros Hpos.
    destruct (find p (rev (range 0 min_idx))) as [hit|] eqn:E; [|lia].
    apply find_some in E. destruct E as [_ E].
    replace (hit + 1 - 1) with hit by lia. exact E.
  - intros Hlast.
    destruct (find p (range (min_idx + 1) (len x))) as [hit|] eqn:E; [|lia].
    apply find_some in E. destruct E as [_ E].
    replace (hit - 1 + 1) with hit by lia. exact E.
Qed.

Lemma expanded_segment_is_maximal_witness :
  (forall i, 2 <= i < 4 ->
     reaches (Some (95 # 20)) (at_ [5; 5; 4; 3; 5 # 2; 3; 4; 5; 5]%Q i) = false)
  /\ (forall i, 4 < i <= 6 ->
     reaches (Some (95 # 20)) (at_ [5; 5; 4; 3; 5 # 2; 3; 4; 5; 5]%Q i) = false)
  /\ (0 < 2 ->
     reaches (Some (95 # 20)) (at_ [5; 5; 4; 3; 5 # 2; 3; 4; 5; 5]%Q (2 - 1)) = true)
  /\ (6 < len [5; 5; 4; 3; 5 # 2; 3; 4; 5; 5]%Q - 1 ->
     reaches (Some (95 # 20)) (at_ [5; 5; 4; 3; 5 # 2; 3; 4; 5; 5]%Q (6 + 1)) = true).
Proof.
  apply (expanded_segment_is_maximal false [5; 5; 4; 3; 5 # 2; 3; 4; 5; 5]%Q
           4 5 (1 # 10)).
  - unfold len. cbn. lia.
  - vm_compute. reflexivity.
  - vm_compute. reflexivity.
Defined.

(** * Further properties of the discoverer *)

(** ** Ranking and truncation *)

Section SortBy.

Context {A : Type}.
Variable before : A -> A -> bool.
Hypothesis before_total : forall a b, before a b = false -> before b a = true.

Definition ahead (a b : A) : Prop := before a b = true.

Lemma insert_by_HdRel (a b : A) (l : list A) :
  ahead b a -> HdRel ahead b l -> HdRel ahead b (insert_by before a l).
Proof.
  intros Hba Hl. destruct l as [|y t]; cbn [insert_by].
  - now constructor.
  - destruct (before a y); constructor; [assumption|].
    now inversion Hl.
Qed.

Lemma insert_by_Sorted (a : A) (l : list A) :
  Sorted ahead l -> Sorted ahead (insert_by before a l).
Proof.
  induction l as [|y t IH]; intros Hs; cbn [insert_by].
  - repeat constructor.
  - destruct (before a y) eqn:E.
    + constructor; [assumption|]. now constructor.
    + inversion Hs; subst. constructor; [now apply IH|].
      apply insert_by_HdRel; [|assumption]. now apply before_total.
Qed.

Lemma sort_by_Sorted (l : list A) : Sorted ahead (sort_by before l).
Proof.
  unfold sort_by. induction l as [|x t IH]; cbn [fold_right]; [constructor|].
  now apply insert_by_Sorted.
Qed.

End SortBy.

Lemma Sorted_weaken {A : Type} (R R' : A -> A -> Prop) (l : list A) :
  (forall a b, R a b -> R' a b) -> Sorted R l -> Sorted R' l.
Proof.
  intros Himp. induction l as [|x t IH]; intros Hs; [constructor|].
  inversion Hs; subst. constructor; [now apply IH|].
  destruct t as [|y t']; constructor. inversion H2; subst. now apply Himp.
Qed.

Lemma StronglySorted_firstn {A : Type} (R : A -> A -> Prop) (n : nat)
    (l : list A) : StronglySorted R l -> StronglySorted R (firstn n l).
Proof.
  revert l. induction n as [|n IH]; intros l Hs; [constructor|].
  destruct l as [|x t]; [constructor|]. cbn [firstn].
  inversion Hs; subst. constructor; [now apply IH|].
  rewrite Forall_forall in *. intros y Hy. apply H2. now apply In_firstn in Hy.
Qed.

Lemma slice_to_firstn {A : Type} (l : list A) (hi : Z) :
  slice_to l hi = firstn (Z.to_nat (clip_index (len l) hi)) l.
Proof.
  unfold slice_to, slice. cbv zeta.
  assert (clip_index (len l) 0 = 0) as ->
    by (apply clip_index_inside; pose proof (len_nonneg l); lia).
  cbn [Z.to_nat skipn]. f_equal. lia.
Qed.

(** By confidence, highest first. *)
Definition ranked (a b : candidate) : Prop :=
  (c_confidence b <= c_confidence a)%Q.

(** X12: The records come back ranked by confidence, highest first, and for
    [max_dips >= 0] there are at most [max_dips] of them. *)
Theorem find_all_dips_ranked (M : MathLib) (np : bool) (series : list Q)
    (smoothing_window : Z) (min_prominence_factor : Q)
    (pre_window post_window : option Z) (min_width : Z) (k min_abs_depth : Q)
    (require_recovery : bool) (n0 max_dips : Z) (multi_scale : bool)
    (scale_factors : option (list Z)) (out : list candidate) :
  find_all_dips M np series smoothing_window min_prominence_factor pre_window
                post_window min_width k min_abs_depth require_recovery n0
                max_dips multi_scale scale_factors = Ok out ->
  StronglySorted ranked out
  /\ (0 <= max_dips -> len out <= max_dips).
Proof.
  unfold find_all_dips. cbv zeta.
  destruct (len series <? min_width).
  { intros [= <-]. split; [constructor|]. unfold len. cbn. lia. }
  destruct (scan_scales _ _ _ _ _ _ _ _ _ _ _ _ _ []) as [all | err];
    [|discriminate].
  cbn [bind]. destruct all as [|c rest].
  { intros [= <-]. split; [constructor|]. unfold len. cbn. lia. }
  destruct (merge_candidates M np (c :: rest)) as [merged | err];
    [|discriminate].
  cbn [bind]. intros [= <-]. rewrite slice_to_firstn. split.
  - apply StronglySorted_firstn. apply Sorted_StronglySorted.
    + intros a b d Hab Hbd. unfold ranked in *. lra.
    + pose proof (sort_by_Sorted
                    (fun a b => Qleb (c_confidence b) (c_confidence a))) as Hs.
      assert (forall l, Sorted ranked
                (sort_by (fun a b => Qleb (c_confidence b) (c_confidence a)) l))
        as Hranked.
      { intros l.
        apply (Sorted_weaken
                 (ahead (fun a b => Qleb (c_confidence b) (c_confidence a)))).
        - intros a b Hab. unfold ahead in Hab. now apply Qleb_true in Hab.
        - apply Hs. intros a b Hab. apply Qleb_false in Hab.
          apply Qleb_true. lra. }
      apply Hranked.
  - intros Hmax. unfold len at 1. rewrite length_firstn.
    pose proof (clip_index_range (len (sort_by
                  (fun a b => Qleb (c_confidence b) (c_confidence a)) merged))
                  max_dips (len_nonneg _)) as Hc.
    assert (clip_index (len (sort_by
              (fun a b => Qleb (c_confidence b) (c_confidence a)) merged))
              max_dips <= max_dips) as Hle.
    { unfold clip_index. destruct (max_dips <? 0) eqn:E.
      - apply Z.ltb_lt in E. lia.
      - lia. }
    lia.
Qed.

Lemma find_all_dips_ranked_witness :
  match find_all_dips approx_math false
          [5; 5; 5; 4; 3; 5 # 2; 3; 4; 5; 5; 5; 48 # 10; 3; 2; 3; 48 # 10; 5]%Q
          3 (3 # 10) None None 2 (1 # 4) 0 true 200 1 true None with
  | Ok out => StronglySorted ranked out /\ (0 <= 1 -> len out <= 1)
  | Raise _ => False
  end.
Proof.
  assert (exists out,
            find_all_dips approx_math false
              [5; 5; 5; 4; 3; 5 # 2; 3; 4; 5; 5; 5; 48 # 10; 3; 2; 3; 48 # 10; 5]%Q
              3 (3 # 10) None None 2 (1 # 4) 0 true 200 1 true None = Ok out)
    as [out E] by (eexists; vm_compute; reflexivity).
  rewrite E. exact (find_all_dips_ranked _ _ _ _ _ _ _ _ _ _ _ _ _ _ _ _ E).
Defined.

(** ** What is kept *)

(** [f] with its ["confidence"] overwritten. *)
Definition with_confidence (f : full_metrics) (v : Q) : full_metrics :=
  {| m_start := m_start f; m_end := m_end f; m_width := m_width f;
     m_baseline := m_baseline f; m_local_median := m_local_median f;
     m_global_median := m_global_median f; m_local_mad := m_local_mad f;
     m_alpha := m_alpha f; m_seg_min := m_seg_min f;
     m_seg_min_index := m_seg_min_index f; m_depth := m_depth f;
     m_depth_threshold := m_depth_threshold f;
     m_prominence := m_prominence f; m_area := m_area f;
     m_recovered := m_recovered f; m_is_ongoing := m_is_ongoing f;
     m_confidence := v; m_is_dip := m_is_dip f; m_k := m_k f;
     m_min_abs_depth := m_min_abs_depth f; m_reason := m_reason f |}.

Lemma with_confidence_same (f : full_metrics) :
  with_confidence f (m_confidence f) = f.
Proof. destruct f. reflexivity. Qed.

(** The scale keys set when a winner is closed: [detected_at_scales] counts
    the entries of [scale_list], which holds the record's own scale factor. *)
Definition labelled (c : candidate) : Prop :=
  exists n l,
    c_detected_at_scales c = Some n /\ c_scale_list c = Some l
    /\ 1 <= n /\ len l = n /\ In (c_scale_factor c) l.

Lemma insert_by_length {A : Type} (before : A -> A -> bool) (a : A) (l : list A) :
  List.length (insert_by before a l) = S (List.length l).
Proof.
  induction l as [|y t IH]; cbn; [reflexivity|].
  destruct (before a y); cbn; [reflexivity | now rewrite IH].
Qed.

Lemma sort_by_length {A : Type} (before : A -> A -> bool) (l : list A) :
  List.length (sort_by before l) = List.length l.
Proof.
  unfold sort_by. induction l as [|x t IH]; cbn; [reflexivity|].
  now rewrite insert_by_length, IH.
Qed.

Lemma In_insert_by {A : Type} (before : A -> A -> bool) (a b : A) (l : list A) :
  b = a \/ In b l -> In b (insert_by before a l).
Proof.
  induction l as [|y t IH]; cbn.
  - intros [-> | []]. now left.
  - destruct (before a y); cbn.
    + intros [-> | [-> | H]]; auto.
    + intros [-> | [-> | H]]; auto.
Qed.

Lemma In_sort_by {A : Type} (before : A -> A -> bool) (b : A) (l : list A) :
  In b l -> In b (sort_by before l).
Proof.
  unfold sort_by. induction l as [|x t IH]; cbn; [trivial|].
  intros [-> | H]; apply In_insert_by; auto.
Qed.

Lemma finalize_labelled (c : candidate) (scales : list Z) :
  In (c_scale_factor c) scales -> labelled (finalize c scales).
Proof.
  intros Hin. unfold finalize. cbv zeta.
  assert (labelled (set_scales c (len (nodup Z.eq_dec scales))
                               (sorted_set scales))) as Hl.
  { exists (len (nodup Z.eq_dec scales)), (sorted_set scales).
    cbn. repeat split.
    - apply (nodup_In Z.eq_dec) in Hin. unfold len.
      destruct (nodup Z.eq_dec scales); [destruct Hin | cbn; lia].
    - unfold len, sorted_set. now rewrite sort_by_length.
    - unfold sorted_set. apply In_sort_by. now apply nodup_In. }
  destruct (1 <? len scales); [|exact Hl]. exact Hl.
Qed.

Section ScanInvariant.

Variable M : MathLib.
Variable np : bool.
Variable series : list Q.
Variables pre_window post_window min_width : Z.
Variables k min_abs_depth : Q.
Variable require_recovery : bool.
Variable n0 : Z.

Variable P : candidate -> Prop.

Hypothesis P_classified :
  forall x_smooth scale_factor m c,
    0 <= scale_factor ->
    classify_minimum M np series pre_window post_window min_width k
                     min_abs_depth require_recovery n0 x_smooth scale_factor m
      = Ok (Some c) ->
    P c.

Lemma classify_minima_keeps (x_smooth : list Q) (scale_factor : Z)
    (minima : list minimum) (acc out : list candidate) :
  0 <= scale_factor ->
  Forall P acc ->
  classify_minima M np series pre_window post_window min_width k min_abs_depth
                  require_recovery n0 x_smooth scale_factor minima acc = Ok out ->
  Forall P out.
Proof.
  intros Hs. revert acc. induction minima as [|m rest IH]; intros acc Hacc;
    cbn [classify_minima].
  - intros [= <-]. assumption.
  - destruct (classify_minimum _ _ _ _ _ _ _ _ _ _ _ _ m) as [found | err] eqn:E;
      [|discriminate].
    cbn [bind]. apply IH. destruct found as [c|]; [|assumption].
    apply Forall_app. split; [assumption|]. constructor; [|constructor].
    now apply (P_classified x_smooth scale_factor m).
Qed.

Lemma scan_scale_keeps (smoothing_window : Z) (min_prominence_factor : Q)
    (scale_factor : Z) (acc out : list candidate) :
  Forall P acc ->
  scan_scale M np series pre_window post_window min_width k min_abs_depth
             require_recovery n0 smoothing_window min_prominence_factor
             scale_factor acc = Ok out ->
  Forall P out.
Proof.
  intros Hacc. unfold scan_scale. cbv zeta.
  match goal with |- bind ?r _ = _ -> _ => destruct r as [x_smooth | err] end;
    [|discriminate].
  cbn [bind].
  match goal with |- bind ?r _ = _ -> _ => destruct r as [global_mad | err] end;
    [|discriminate].
  cbn [bind]. unfold sqrt_int.
  destruct (scale_factor <? 0) eqn:Es; [discriminate|]. apply Z.ltb_ge in Es.
  cbn [bind].
  match goal with |- bind ?r _ = _ -> _ => destruct r as [spf | err] end;
    [|discriminate].
  cbn [bind]. now apply classify_minima_keeps.
Qed.

Lemma scan_scales_keeps (smoothing_window : Z) (min_prominence_factor : Q)
    (scale_factors : list Z) (acc out : list candidate) :
  Forall P acc ->
  scan_scales M np series pre_window post_window min_width k min_abs_depth
              require_recovery n0 smoothing_window min_prominence_factor
              scale_factors acc = Ok out ->
  Forall P out.
Proof.
  revert acc. induction scale_factors as [|sf rest IH]; intros acc Hacc;
    cbn [scan_scales].
  - intros [= <-]. assumption.
  - destruct (scan_scale _ _ _ _ _ _ _ _ _ _ _ _ sf acc) as [found | err] eqn:E;
      [|discriminate].
    cbn [bind]. apply IH. now apply scan_scale_keeps in E.
Qed.

End ScanInvariant.

Section MergeInvariant.

Variable M : MathLib.
Variable np : bool.
Variable P : candidate -> Prop.

Hypothesis P_finalize : forall c scales, P c -> P (finalize c scales).
Hypothesis P_set_scales : forall c n l, P c -> P (set_scales c n l).

Definition closed (c : candidate) : Prop := P c /\ labelled c.

Definition sweep_keeps (st : sweep) : Prop :=
  let '(current, current_scales, merged) := st in
  P current /\ In (c_scale_factor current) current_scales
  /\ Forall closed merged.

Lemma merge_step_keeps (st st' : sweep) (next_dip : candidate) :
  sweep_keeps st -> P next_dip ->
  merge_step M np st next_dip = Ok st' -> sweep_keeps st'.
Proof.
  destruct st as [[current scales] merged]. intros (Hc & Hin & Hm) Hn.
  unfold merge_step.
  destruct (sqrt_int M _) as [root | err]; [|discriminate]. cbn [bind].
  cbv zeta.
  destruct (c_start next_dip <=? _).
  - destruct (Qltb _ _).
    { intros [= <-]. repeat split; [assumption | now left | assumption]. }
    destruct (Qeqb _ 0).
    + destruct np; [|discriminate]. intros [= <-].
      repeat split; assumption.
    + destruct (Qltb _ _); intros [= <-].
      * repeat split; [assumption | | assumption].
        apply in_or_app. now left.
      * repeat split; assumption.
  - intros [= <-]. repeat split; [assumption | now left|].
    apply Forall_app. split; [assumption|]. constructor; [|constructor].
    split; [now apply P_finalize | now apply finalize_labelled].
Qed.

Lemma merge_sweep_keeps (st st' : sweep) (rest : list candidate) :
  sweep_keeps st -> Forall P rest ->
  merge_sweep M np st rest = Ok st' -> sweep_keeps st'.
Proof.
  revert st. induction rest as [|next_dip rest IH]; intros st Hst Hrest;
    cbn [merge_sweep].
  - intros [= <-]. assumption.
  - inversion Hrest; subst.
    destruct (merge_step M np st next_dip) as [st1 | err] eqn:E; [|discriminate].
    cbn [bind]. apply IH; [|assumption].
    now apply (merge_step_keeps st st1 next_dip).
Qed.

Lemma merge_candidates_keeps (all_candidates out : list candidate) :
  Forall P all_candidates ->
  merge_candidates M np all_candidates = Ok out ->
  Forall closed out.
Proof.
  intros Hall. unfold merge_candidates.
  destruct all_candidates as [|c1 [|c2 rest]].
  - intros [= <-]. constructor.
  - intros [= <-]. inversion Hall; subst. constructor; [|constructor].
    split; [now apply P_set_scales|].
    exists 1, [c_scale_factor c1]. cbn. repeat split; lia.
  - pose proof (sort_by_Forall P (fun a b => c_start a <=? c_start b) _ Hall)
      as Hsorted.
    destruct (sort_by _ (c1 :: c2 :: rest)) as [|first others];
      [intros [= <-]; constructor|].
    inversion Hsorted; subst.
    destruct (merge_sweep M np _ others) as [[[current scales] merged] | err] eqn:E;
      [|discriminate].
    cbn [bind]. intros [= <-].
    apply merge_sweep_keeps in E;
      [|repeat split; [assumption | now left | constructor] | assumption].
    destruct E as (Hc & Hin & Hm).
    apply Forall_app. split; [assumption|]. constructor; [|constructor].
    split; [now apply P_finalize | now apply finalize_labelled].
Qed.

End MergeInvariant.

Section Kept.

Variable M : MathLib.
Variable np : bool.
Variable series : list Q.
Variables pre_window post_window min_width : Z.
Variables k min_abs_depth : Q.
Variable require_recovery : bool.
Variable n0 : Z.

(** [scale_min_width] (line 381). *)
Definition scale_min_width (scale_factor : Z) : Z :=
  Z.max min_width (Qtrunc (ofZ min_width * m_sqrt M (ofZ scale_factor))).

(** A record that can be replayed: classifying its segment again, with the
    windows of the run and the minimal width of its scale, accepts it and
    gives its metrics back, with a confidence that is not above the one
    recorded. *)
Definition kept (c : candidate) : Prop :=
  good c
  /\ c_detection_scale c = detection_scale_of (c_scale_factor c)
  /\ exists f0,
      detect_dip M np series (c_start c) (c_end c) pre_window post_window
                 (scale_min_width (c_scale_factor c)) k min_abs_depth
                 require_recovery n0 = Ok (true, Metrics f0)
      /\ c_metrics c = with_confidence f0 (c_confidence c)
      /\ (m_confidence f0 <= c_confidence c)%Q.

Lemma classify_minimum_kept (x_smooth : list Q) (scale_factor : Z) (m : minimum)
    (c : candidate) :
  0 <= scale_factor ->
  classify_minimum M np series pre_window post_window min_width k min_abs_depth
                   require_recovery n0 x_smooth scale_factor m = Ok (Some c) ->
  kept c.
Proof.
  intros Hsf Hc.
  pose proof (classify_minimum_good _ _ _ _ _ _ _ _ _ _ _ _ _ _ Hc)
    as [Hconf Hscale].
  revert Hc. unfold classify_minimum. cbv zeta.
  destruct (expand_dip_boundaries _ _ _ _ _) as [[s e] | err]; [|discriminate].
  cbn [bind].
  destruct (detect_dip _ _ _ _ _ _ _ _ _ _ _ _) as [[b mt] | err] eqn:E;
    [|discriminate].
  cbn [bind]. destruct b; [|discriminate]. destruct mt as [w mw | f];
    [discriminate|].
  intros [= <-]. split; [|split].
  - split; [exact Hconf|]. cbn. exact Hsf.
  - reflexivity.
  - exists f. unfold c_start, c_end, c_confidence. cbn [c_metrics c_scale_factor].
    pose proof (detect_dip_fields _ _ _ _ _ _ _ _ _ _ _ _ _ _ E) as F.
    cbv zeta in F. destruct F as (_ & _ & Hs & He & _).
    rewrite Hs, He. split; [exact E|]. split.
    + symmetry. apply with_confidence_same.
    + lra.
Qed.

Lemma kept_set_scales (c : candidate) (n : Z) (l : list Z) :
  kept c -> kept (set_scales c n l).
Proof. intros H. exact H. Qed.

Lemma boost_not_below (v : Q) (n : Z) :
  (0 <= v <= 1)%Q -> 1 < n ->
  (v <= pymin 1 (v * (1 + (1 # 10) * ofZ (n - 1))))%Q.
Proof.
  intros Hv Hn.
  assert (1 <= ofZ (n - 1))%Q by (unfold ofZ, Qle; cbn; lia).
  assert (v <= v * (1 + (1 # 10) * ofZ (n - 1)))%Q by nra.
  destruct (pymin_cases 1 (v * (1 + (1 # 10) * ofZ (n - 1))))
    as [[-> ?] | [-> ?]]; lra.
Qed.

Lemma kept_finalize (c : candidate) (scales : list Z) :
  kept c -> kept (finalize c scales).
Proof.
  intros Hk. pose proof Hk as (Hgood & Hlabel & f0 & Hcall & Hm & Hle).
  pose proof (finalize_good c scales Hgood) as Hgood'.
  split; [exact Hgood'|]. revert Hgood'. unfold finalize. cbv zeta.
  destruct (1 <? len scales) eqn:E; intros Hgood';
    [|destruct Hk as (_ & H2 & H3); split; [exact H2 | exact H3]].
  apply Z.ltb_lt in E. split; [exact Hlabel|].
  exists f0. split; [exact Hcall|].
  unfold c_confidence at 1 2. cbn [set_confidence c_metrics m_confidence].
  split.
  - cbn [set_scales c_metrics]. rewrite Hm. reflexivity.
  - eapply Qle_trans; [exact Hle|].
    apply boost_not_below; [apply Hgood | exact E].
Qed.

Lemma scan_scales_kept (smoothing_window : Z) (min_prominence_factor : Q)
    (scale_factors : list Z) (out : list candidate) :
  scan_scales M np series pre_window post_window min_width k min_abs_depth
              require_recovery n0 smoothing_window min_prominence_factor
              scale_factors [] = Ok out ->
  Forall kept out.
Proof.
  apply (scan_scales_keeps M np series pre_window post_window min_width k
           min_abs_depth require_recovery n0 kept).
  - intros x_smooth sf m c Hsf Hc. now apply (classify_minimum_kept x_smooth sf m).
  - constructor.
Qed.

Lemma merge_candidates_kept (all_candidates out : list candidate) :
  Forall kept all_candidates ->
  merge_candidates M np all_candidates = Ok out ->
  Forall (closed kept) out.
Proof.
  apply (merge_candidates_keeps M np kept kept_finalize kept_set_scales).
Qed.

End Kept.

(** The windows a run of [find_all_dips] uses (lines 296-299). *)
Definition resolved_window (N min_width : Z) (window : option Z) : Z :=
  match window with
  | Some w => w
  | None => Z.max min_width (Z.min 50 (N / 4))
  end.

Lemma find_all_dips_closed (M : MathLib) (np : bool) (series : list Q)
    (smoothing_window : Z) (min_prominence_factor : Q)
    (pre_window post_window : option Z) (min_width : Z) (k min_abs_depth : Q)
    (require_recovery : bool) (n0 max_dips : Z) (multi_scale : bool)
    (scale_factors : option (list Z)) (out : list candidate) :
  find_all_dips M np series smoothing_window min_prominence_factor pre_window
                post_window min_width k min_abs_depth require_recovery n0
                max_dips multi_scale scale_factors = Ok out ->
  Forall (closed
            (kept M np series
                  (resolved_window (len series) min_width pre_window)
                  (resolved_window (len series) min_width post_window)
                  min_width k min_abs_depth require_recovery n0)) out.
Proof.
  unfold find_all_dips, resolved_window. cbv zeta.
  destruct (len series <? min_width); [intros [= <-]; constructor|].
  destruct (scan_scales _ _ _ _ _ _ _ _ _ _ _ _ _ []) as [all | err] eqn:E;
    [|discriminate].
  cbn [bind]. apply scan_scales_kept in E.
  destruct all as [|c rest]; [intros [= <-]; constructor|].
  destruct (merge_candidates M np (c :: rest)) as [merged | err] eqn:Em;
    [|discriminate].
  cbn [bind]. intros [= <-].
  apply (merge_candidates_kept _ _ _ _ _ _ _ _ _ _ _ _ E) in Em.
  unfold slice_to. apply slice_Forall. now apply sort_by_Forall.
Qed.

(** X13: Every record returned by [find_all_dips] can be replayed: [detect_dip] on
    its segment, with the windows of the run and the minimal width of the
    record's scale factor, returns [True] and the record's own metrics; only
    the confidence may differ, and the recorded one is not lower. *)
Theorem returned_records_replay (M : MathLib) (np : bool) (series : list Q)
    (smoothing_window : Z) (min_prominence_factor : Q)
    (pre_window post_window : option Z) (min_width : Z) (k min_abs_depth : Q)
    (require_recovery : bool) (n0 max_dips : Z) (multi_scale : bool)
    (scale_factors : option (list Z)) (out : list candidate) (c : candidate) :
  find_all_dips M np series smoothing_window min_prominence_factor pre_window
                post_window min_width k min_abs_depth require_recovery n0
                max_dips multi_scale scale_factors = Ok out ->
  In c out ->
  exists f0,
    detect_dip M np series (c_start c) (c_end c)
               (resolved_window (len series) min_width pre_window)
               (resolved_window (len series) min_width post_window)
               (scale_min_width M min_width (c_scale_factor c))
               k min_abs_depth require_recovery n0 = Ok (true, Metrics f0)
    /\ c_metrics c = with_confidence f0 (c_confidence c)
    /\ (m_confidence f0 <= c_confidence c <= 1)%Q.
Proof.
  intros Hcall Hin. apply find_all_dips_closed in Hcall.
  rewrite Forall_forall in Hcall.
  destruct (Hcall c Hin) as [(Hgood & _ & f0 & Hrun & Hm & Hle) _].
  exists f0. repeat split; try assumption. apply Hgood.
Qed.

Lemma returned_records_replay_witness :
  exists c rest f0,
    find_all_dips_defaults approx_math false
      [5; 5; 5; 4; 3; 5 # 2; 3; 4; 5; 5; 5; 48 # 10; 3; 2; 3; 48 # 10; 5]%Q
      = Ok (c :: rest)
    /\ detect_dip approx_math false
         [5; 5; 5; 4; 3; 5 # 2; 3; 4; 5; 5; 5; 48 # 10; 3; 2; 3; 48 # 10; 5]%Q
         (c_start c) (c_end c)
         (resolved_window 17 2 None) (resolved_window 17 2 None)
         (scale_min_width approx_math 2 (c_scale_factor c))
         (1 # 4) 0 true 200 = Ok (true, Metrics f0)
    /\ c_metrics c = with_confidence f0 (c_confidence c)
    /\ (m_confidence f0 <= c_confidence c <= 1)%Q.
Proof.
  assert (exists c rest,
             find_all_dips_defaults approx_math false
               [5; 5; 5; 4; 3; 5 # 2; 3; 4; 5; 5; 5; 48 # 10; 3; 2; 3; 48 # 10; 5]%Q
               = Ok (c :: rest)) as (c & rest & E)
    by (eexists; eexists; vm_compute; reflexivity).
  destruct (returned_records_replay _ _ _ _ _ _ _ _ _ _ _ _ _ _ _ _ c E
              (or_introl eq_refl)) as (f0 & H1 & H2 & H3).
  exists c, rest, f0.
  split; [exact E|]. split; [exact H1|]. split; [exact H2 | exact H3].
Defined.

(** X14: Every record returned by [find_all_dips] is an accepted dip: [is_dip] and
    [recovered] are true, no reason is attached, the depth reaches the
    threshold, the segment lies inside the series and is at least [min_width]
    wide, the scale label is the one of its scale factor, and
    [detected_at_scales] and [scale_list] are set, the first being the length
    of the second, which holds the record's scale factor. *)
Theorem returned_records_are_dips (M : MathLib) (np : bool) (series : list Q)
    (smoothing_window : Z) (min_prominence_factor : Q)
    (pre_window post_window : option Z) (min_width : Z) (k min_abs_depth : Q)
    (require_recovery : bool) (n0 max_dips : Z) (multi_scale : bool)
    (scale_factors : option (list Z)) (out : list candidate) (c : candidate) :
  find_all_dips M np series smoothing_window min_prominence_factor pre_window
                post_window min_width k min_abs_depth require_recovery n0
                max_dips multi_scale scale_factors = Ok out ->
  In c out ->
  m_is_dip (c_metrics c) = true
  /\ m_recovered (c_metrics c) = true
  /\ m_reason (c_metrics c) = None
  /\ (m_depth_threshold (c_metrics c) <= m_depth (c_metrics c))%Q
  /\ valid_bounds (len series) (c_start c) (c_end c)
  /\ m_width (c_metrics c) = c_end c - c_start c + 1
  /\ min_width <= m_width (c_metrics c)
  /\ c_detection_scale c = detection_scale_of (c_scale_factor c)
  /\ labelled c.
Proof.
  intros Hcall Hin. apply find_all_dips_closed in Hcall.
  rewrite Forall_forall in Hcall.
  destruct (Hcall c Hin) as [(_ & Hscale & f0 & Hrun & Hm & _) Hlabel].
  pose proof (detect_dip_more _ _ _ _ _ _ _ _ _ _ _ _ _ _ Hrun) as Hmore.
  cbv zeta in Hmore. destruct Hmore as (_ & _ & _ & _ & _ & _ & _ & _ & Hreason).
  pose proof (detect_dip_fields _ _ _ _ _ _ _ _ _ _ _ _ _ _ Hrun) as F.
  cbv zeta in F.
  destruct F as (Hb & Hgate & Hs & He & Hw & Hdip & _ & _ & _ & _ & _ & Hv & _).
  symmetry in Hv. apply andb_true_iff in Hv. destruct Hv as [Hpass Hrec].
  rewrite Hpass, Hrec in Hreason. cbn in Hreason.
  rewrite andb_false_r in Hreason.
  unfold scale_min_width in Hgate.
  rewrite Hm. cbn [with_confidence m_is_dip m_recovered m_reason
                   m_depth_threshold m_depth m_width].
  split; [exact Hdip|]. split; [exact Hrec|]. split; [exact Hreason|].
  split; [now apply Qleb_true|]. split; [exact Hb|].
  split; [exact Hw|]. split; [rewrite Hw; lia|].
  split; [exact Hscale | exact Hlabel].
Qed.

Lemma returned_records_are_dips_witness :
  exists c rest,
    find_all_dips_defaults approx_math false
      [5; 5; 5; 4; 3; 5 # 2; 3; 4; 5; 5; 5; 48 # 10; 3; 2; 3; 48 # 10; 5]%Q
      = Ok (c :: rest)
    /\ m_is_dip (c_metrics c) = true
    /\ m_reason (c_metrics c) = None
    /\ valid_bounds 17 (c_start c) (c_end c)
    /\ labelled c.
Proof.
  assert (exists c rest,
             find_all_dips_defaults approx_math false
               [5; 5; 5; 4; 3; 5 # 2; 3; 4; 5; 5; 5; 48 # 10; 3; 2; 3; 48 # 10; 5]%Q
               = Ok (c :: rest)) as (c & rest & E)
    by (eexists; eexists; vm_compute; reflexivity).
  destruct (returned_records_are_dips _ _ _ _ _ _ _ _ _ _ _ _ _ _ _ _ c E
              (or_introl eq_refl))
    as (H1 & _ & H3 & _ & H5 & _ & _ & _ & H9).
  exists c, rest.
  split; [exact E|]. split; [exact H1|]. split; [exact H3|].
  split; [exact H5 | exact H9].
Defined.

(** ** Smoothing without numpy *)

Lemma scan_scales_unsmoothed (M : MathLib) (series : list Q)
    (pre_window post_window min_width : Z) (k min_abs_depth : Q)
    (require_recovery : bool) (n0 w1 w2 : Z) (min_prominence_factor : Q)
    (scale_factors : list Z) (acc : list candidate) :
  scan_scales M false series pre_window post_window min_width k min_abs_depth
              require_recovery n0 w1 min_prominence_factor scale_factors acc
  = scan_scales M false series pre_window post_window min_width k min_abs_depth
                require_recovery n0 w2 min_prominence_factor scale_factors acc.
Proof.
  revert acc. induction scale_factors as [|sf rest IH]; intros acc;
    cbn [scan_scales]; [reflexivity|].
  assert (scan_scale M false series pre_window post_window min_width k
                     min_abs_depth require_recovery n0 w1 min_prominence_factor
                     sf acc
          = scan_scale M false series pre_window post_window min_width k
                       min_abs_depth require_recovery n0 w2
                       min_prominence_factor sf acc) as ->.
  { unfold scan_scale. cbv zeta.
    destruct (1 <? Z.max 1 (w1 * sf)); destruct (1 <? Z.max 1 (w2 * sf));
      reflexivity. }
  destruct (scan_scale _ _ _ _ _ _ _ _ _ _ _ _ sf acc); [|reflexivity].
  cbn [bind]. apply IH.
Qed.

(** X15: Without numpy [smoothing_window] has no effect: the series is never
    smoothed (line 328), so any two values of the option give the same
    result. *)
Theorem smoothing_window_ignored_without_numpy (M : MathLib) (series : list Q)
    (w1 w2 : Z) (min_prominence_factor : Q) (pre_window post_window : option Z)
    (min_width : Z) (k min_abs_depth : Q) (require_recovery : bool)
    (n0 max_dips : Z) (multi_scale : bool) (scale_factors : option (list Z)) :
  find_all_dips M false series w1 min_prominence_factor pre_window post_window
                min_width k min_abs_depth require_recovery n0 max_dips
                multi_scale scale_factors
  = find_all_dips M false series w2 min_prominence_factor pre_window post_window
                  min_width k min_abs_depth require_recovery n0 max_dips
                  multi_scale scale_factors.
Proof.
  unfold find_all_dips. cbv zeta.
  destruct (len series <? min_width); [reflexivity|].
  now rewrite (scan_scales_unsmoothed M series _ _ _ _ _ _ _ w1 w2).
Qed.

(** * Further properties of the robust statistics *)

Definition within (lo hi : Q) (l : list Q) : Prop :=
  forall v, In v l -> (lo <= v <= hi)%Q.

Lemma sorted_within (lo hi : Q) (l : list Q) :
  within lo hi l -> within lo hi (sorted l).
Proof. intros H v Hv. apply H. now apply sorted_In. Qed.

(** Trimming keeps the [n - 2 * max(1, n // 10)] central order statistics,
    and at least one of them. *)
Lemma trimmed_slice_len (values : list Q) :
  3 <= len values ->
  let trim_count := Z.max 1 (len values / 10) in
  len (slice (sorted values) trim_count (- trim_count))
  = len values - 2 * trim_count
  /\ 1 <= len values - 2 * trim_count.
Proof.
  intros Hn. cbv zeta.
  assert (len (sorted values) = len values) as Hs
    by (unfold len; now rewrite sorted_length).
  pose proof (Z.div_mod (len values) 10 ltac:(lia)) as Hdm.
  pose proof (Z.mod_pos_bound (len values) 10 ltac:(lia)) as Hr.
  set (tc := Z.max 1 (len values / 10)) in *.
  assert (1 <= tc /\ 2 * tc < len values) as [Ht1 Ht2] by (unfold tc; lia).
  split; [|lia].
  unfold slice. cbv zeta. rewrite Hs.
  assert (clip_index (len values) tc = tc) as -> by (apply clip_index_inside; lia).
  assert (clip_index (len values) (- tc) = len values - tc) as ->.
  { unfold clip_index.
    assert ((- tc <? 0) = true) as -> by (apply Z.ltb_lt; lia). lia. }
  unfold len in *. rewrite length_firstn, length_skipn, sorted_length. lia.
Qed.

(** X16: For three or more values [_trimmed_mean] is the mean of the
    [n - 2 * max(1, n // 10)] central order statistics: the central slice is
    never empty, so the untrimmed fallback of line 86 is never taken. *)
Theorem trimmed_mean_central (values : list Q) :
  3 <= len values ->
  let trim_count := Z.max 1 (len values / 10) in
  let trimmed := slice (sorted values) trim_count (- trim_count) in
  len trimmed = len values - 2 * trim_count
  /\ 1 <= len trimmed
  /\ _trimmed_mean values = (sum trimmed / ofZ (len trimmed))%Q.
Proof.
  intros Hn. cbv zeta.
  destruct (trimmed_slice_len values Hn) as [Hlen Hpos]. cbv zeta in Hlen.
  split; [exact Hlen|]. split; [lia|].
  unfold _trimmed_mean.
  assert ((len values <? 3) = false) as -> by (apply Z.ltb_ge; lia).
  cbv zeta.
  assert (len (sorted values) = len values) as Hs
    by (unfold len; now rewrite sorted_length).
  rewrite Hs.
  destruct (slice (sorted values) (Z.max 1 (len values / 10))
                  (- Z.max 1 (len values / 10))) as [|v t] eqn:E;
    [|reflexivity].
  exfalso. change (len (@nil Q)) with 0 in Hlen. lia.
Qed.

(** Of [5, 1, 4, 2, 3] the three central values [2, 3, 4] are kept. *)
Lemma trimmed_mean_central_witness :
  slice (sorted [5; 1; 4; 2; 3]%Q) 1 (- 1) = [2; 3; 4]%Q
  /\ len (slice (sorted [5; 1; 4; 2; 3]%Q) 1 (- 1)) = 5 - 2 * 1
  /\ 1 <= len (slice (sorted [5; 1; 4; 2; 3]%Q) 1 (- 1))
  /\ _trimmed_mean [5; 1; 4; 2; 3]%Q
     = (sum (slice (sorted [5; 1; 4; 2; 3]%Q) 1 (- 1))
        / ofZ (len (slice (sorted [5; 1; 4; 2; 3]%Q) 1 (- 1))))%Q.
Proof.
  split; [reflexivity|].
  apply (trimmed_mean_central [5; 1; 4; 2; 3]%Q).
  unfold len. cbn. lia.
Defined.

(** X17: The median (with or without numpy) of a non-empty list lies within every
    pair of bounds that holds for all its values, and the MAD is never
    negative. *)
Theorem median_within_bounds (np : bool) (v : list Q) (lo hi med : Q) :
  (v <> [] -> within lo hi v -> (lo <= _median np v <= hi)%Q)
  /\ (0 <= _mad np v med)%Q.
Proof.
  split; [|apply _mad_nonneg].
  intros Hne Hw.
  assert (forall l, l <> [] -> within lo hi l -> (lo <= np_median l <= hi)%Q)
    as Hnp.
  { intros l Hl Hwl. unfold np_median. cbv zeta.
    pose proof (sorted_within lo hi l Hwl) as Hs.
    assert (0 < len (sorted l)) as Hlen.
    { unfold len. rewrite sorted_length. destruct l; [congruence | cbn; lia]. }
    set (n := len (sorted l)) in *.
    assert ((n =? 0) = false) as -> by (apply Z.eqb_neq; lia).
    pose proof (Z.mod_pos_bound n 2 ltac:(lia)) as Hr.
    pose proof (Z.div_mod n 2 ltac:(lia)) as Hdm.
    destruct (n mod 2 =? 1) eqn:E1.
    - apply Hs, at_In. fold n. lia.
    - apply Z.eqb_neq in E1.
      assert (lo <= at_ (sorted l) (n / 2 - 1) <= hi)%Q as H1
        by (apply Hs, at_In; fold n; lia).
      assert (lo <= at_ (sorted l) (n / 2) <= hi)%Q as H2
        by (apply Hs, at_In; fold n; lia).
      split.
      + apply Qle_shift_div_l; [reflexivity | lra].
      + apply Qle_shift_div_r; [reflexivity | lra]. }
  destruct np; [now apply Hnp|]. rewrite <- np_median_agrees. now apply Hnp.
Qed.

Lemma median_within_bounds_witness :
  (1 <= _median false [5; 1; 4; 2]%Q <= 5)%Q.
Proof.
  apply (proj1 (median_within_bounds false [5; 1; 4; 2]%Q 1 5 0)).
  - discriminate.
  - intros v Hv. cbn in Hv.
    repeat (destruct Hv as [<- | Hv]; [split; discriminate|]). destruct Hv.
Defined.

(** ** Separation of the returned dips *)

(** [a] ends more than two samples before [b] starts. *)
Definition clear_of (a b : candidate) : Prop := c_end a + 2 < c_start b.

Definition apart (a b : candidate) : Prop := clear_of a b \/ clear_of b a.

Definition starts_before (a b : candidate) : Prop := c_start a <= c_start b.

Lemma finalize_span (c : candidate) (scales : list Z) :
  c_start (finalize c scales) = c_start c /\ c_end (finalize c scales) = c_end c.
Proof.
  unfold finalize. cbv zeta. destruct (1 <? len scales); split; reflexivity.
Qed.

Lemma StronglySorted_snoc {A : Type} (R : A -> A -> Prop) (l : list A) (a : A) :
  StronglySorted R l -> Forall (fun m => R m a) l -> StronglySorted R (l ++ [a]).
Proof.
  induction l as [|x t IH]; intros Hs Hall; cbn [app].
  - repeat constructor.
  - apply StronglySorted_inv in Hs as [Hs Hx].
    apply Forall_cons_iff in Hall as [Hxa Hall]. constructor.
    + now apply IH.
    + apply Forall_app. split; [assumption|]. now constructor.
Qed.

(** What the sweep maintains: the saved records are in order and clear of
    one another, and all of them are clear of [current]. *)
Definition sweep_clear (st : sweep) : Prop :=
  let '(current, _, merged) := st in
  StronglySorted clear_of merged
  /\ Forall (fun m => c_end m + 2 < c_start current) merged.

Lemma merge_step_clear (M : MathLib) (np : bool) (st st' : sweep)
    (next_dip : candidate) :
  sweep_clear st -> c_start (fst (fst st)) <= c_start next_dip ->
  merge_step M np st next_dip = Ok st' ->
  sweep_clear st'
  /\ (fst (fst st') = fst (fst st) \/ fst (fst st') = next_dip).
Proof.
  destruct st as [[current scales] merged]. cbn [fst].
  intros (Hs & Hall) Hle. unfold merge_step.
  destruct (sqrt_int M _) as [root | err]; [|discriminate]. cbn [bind].
  cbv zeta.
  assert (Forall (fun m => c_end m + 2 < c_start next_dip) merged) as Hnext.
  { rewrite Forall_forall in *. intros m Hm. specialize (Hall m Hm). lia. }
  destruct (c_start next_dip <=? _) eqn:E.
  - destruct (Qltb _ _).
    { intros [= <-]. cbn [fst]. repeat split; [assumption | assumption | now right]. }
    destruct (Qeqb _ 0).
    + destruct np; [|discriminate]. intros [= <-]. cbn [fst].
      repeat split; [assumption | assumption | now left].
    + destruct (Qltb _ _); intros [= <-]; cbn [fst];
        (repeat split; [assumption | assumption | now left]).
  - apply Z.leb_gt in E. intros [= <-]. cbn [fst].
    destruct (finalize_span current scales) as [Hfs Hfe].
    split; [|now right]. split.
    + apply StronglySorted_snoc; [assumption|].
      rewrite Forall_forall in *. intros m Hm. unfold clear_of.
      rewrite Hfs. now apply Hall.
    + apply Forall_app. split; [assumption|]. constructor; [|constructor].
      rewrite Hfe. lia.
Qed.

Lemma merge_sweep_clear (M : MathLib) (np : bool) (rest : list candidate) :
  forall st st',
    sweep_clear st ->
    Forall (fun r => c_start (fst (fst st)) <= c_start r) rest ->
    StronglySorted starts_before rest ->
    merge_sweep M np st rest = Ok st' -> sweep_clear st'.
Proof.
  induction rest as [|next_dip rest IH]; intros st st' Hst Hall Hs;
    cbn [merge_sweep].
  - intros [= <-]. assumption.
  - apply Forall_cons_iff in Hall as [Hnext Hall].
    apply StronglySorted_inv in Hs as [Hs Hafter].
    destruct (merge_step M np st next_dip) as [st1 | err] eqn:E; [|discriminate].
    cbn [bind].
    destruct (merge_step_clear M np st st1 next_dip Hst Hnext E) as [Hst1 Hcur].
    apply IH; [assumption | | assumption].
    destruct Hcur as [-> | ->]; [assumption|].
    exact Hafter.
Qed.

Lemma merge_candidates_clear (M : MathLib) (np : bool)
    (all_candidates out : list candidate) :
  merge_candidates M np all_candidates = Ok out ->
  StronglySorted clear_of out.
Proof.
  unfold merge_candidates.
  destruct all_candidates as [|c1 [|c2 rest]].
  - intros [= <-]. constructor.
  - intros [= <-]. repeat constructor.
  - assert (StronglySorted starts_before
              (sort_by (fun a b => c_start a <=? c_start b) (c1 :: c2 :: rest)))
      as Hsorted.
    { apply Sorted_StronglySorted.
      - intros a b d Hab Hbd. unfold starts_before in *. lia.
      - apply (Sorted_weaken (ahead (fun a b => c_start a <=? c_start b))).
        + intros a b Hab. unfold ahead in Hab. apply Z.leb_le in Hab. exact Hab.
        + apply sort_by_Sorted. intros a b Hab.
          apply Z.leb_gt in Hab. apply Z.leb_le. lia. }
    destruct (sort_by _ (c1 :: c2 :: rest)) as [|first others];
      [intros [= <-]; constructor|].
    apply StronglySorted_inv in Hsorted as [Hothers Hfirst].
    destruct (merge_sweep M np _ others) as [[[current scales] merged] | err] eqn:E;
      [|discriminate].
    cbn [bind]. intros [= <-].
    apply merge_sweep_clear in E;
      [| split; constructor | exact Hfirst | exact Hothers].
    destruct E as (Hs & Hall).
    destruct (finalize_span current scales) as [Hfs Hfe].
    apply StronglySorted_snoc; [assumption|].
    rewrite Forall_forall in *. intros m Hm. unfold clear_of.
    rewrite Hfs. now apply Hall.
Qed.

Section Pairs.

Context {A : Type}.
Variable R : A -> A -> Prop.
Hypothesis R_sym : forall a b, R a b -> R b a.

Lemma insert_by_pairs (before : A -> A -> bool) (a : A) (l : list A) :
  Forall (R a) l -> ForallOrdPairs R l ->
  ForallOrdPairs R (insert_by before a l).
Proof.
  induction l as [|y t IH]; intros Ha Hl; cbn [insert_by].
  - repeat constructor.
  - destruct (before a y).
    + now constructor.
    + apply Forall_cons_iff in Ha as [Hay Hat].
      inversion Hl as [|y' t' Hyt Ht]; subst. constructor.
      * rewrite Forall_forall in *. intros b Hb.
        apply insert_by_In in Hb. destruct Hb as [-> | Hb]; [now apply R_sym|].
        now apply Hyt.
      * now apply IH.
Qed.

Lemma sort_by_pairs (before : A -> A -> bool) (l : list A) :
  ForallOrdPairs R l -> ForallOrdPairs R (sort_by before l).
Proof.
  unfold sort_by. induction l as [|x t IH]; intros Hl; cbn [fold_right].
  - constructor.
  - inversion Hl as [|x' t' Hxt Ht]; subst. apply insert_by_pairs; [|now apply IH].
    rewrite Forall_forall in *. intros b Hb. apply Hxt.
    now apply (sort_by_In before).
Qed.

Lemma firstn_pairs (n : nat) (l : list A) :
  ForallOrdPairs R l -> ForallOrdPairs R (firstn n l).
Proof.
  revert l. induction n as [|n IH]; intros l Hl; [constructor|].
  destruct l as [|x t]; [constructor|]. cbn [firstn].
  inversion Hl as [|x' t' Hxt Ht]; subst. constructor; [|now apply IH].
  rewrite Forall_forall in *. intros y Hy. apply Hxt. now apply In_firstn in Hy.
Qed.

End Pairs.

Lemma StronglySorted_pairs {A : Type} (R R' : A -> A -> Prop) (l : list A) :
  (forall a b, R a b -> R' a b) -> StronglySorted R l -> ForallOrdPairs R' l.
Proof.
  intros Himp. induction l as [|x t IH]; intros Hs; [constructor|].
  apply StronglySorted_inv in Hs as [Hs Hx]. constructor; [|now apply IH].
  rewrite Forall_forall in *. intros y Hy. now apply Himp, Hx.
Qed.

(** X18: Any two of the returned records are apart: one of them ends more than
    two samples before the other starts.  The merge sweep saves a record only
    when the next candidate starts beyond [current['end'] + gap_tolerance],
    and the tolerance is at least 2. *)
Theorem returned_dips_apart (M : MathLib) (np : bool) (series : list Q)
    (smoothing_window : Z) (min_prominence_factor : Q)
    (pre_window post_window : option Z) (min_width : Z) (k min_abs_depth : Q)
    (require_recovery : bool) (n0 max_dips : Z) (multi_scale : bool)
    (scale_factors : option (list Z)) (out : list candidate) :
  find_all_dips M np series smoothing_window min_prominence_factor pre_window
                post_window min_width k min_abs_depth require_recovery n0
                max_dips multi_scale scale_factors = Ok out ->
  ForallOrdPairs apart out.
Proof.
  unfold find_all_dips. cbv zeta.
  destruct (len series <? min_width).
  { intros [= <-]. constructor. }
  destruct (scan_scales _ _ _ _ _ _ _ _ _ _ _ _ _ []) as [all | err];
    [|discriminate].
  cbn [bind]. destruct all as [|c rest].
  { intros [= <-]. constructor. }
  destruct (merge_candidates M np (c :: rest)) as [merged | err] eqn:E;
    [|discriminate].
  cbn [bind]. intros [= <-]. rewrite slice_to_firstn.
  assert (forall a b, apart a b -> apart b a) as Hsym
    by (intros a b [H | H]; [now right | now left]).
  apply firstn_pairs, sort_by_pairs; [exact Hsym|].
  apply (StronglySorted_pairs clear_of);
    [intros a b H; now left | exact (merge_candidates_clear M np _ _ E)].
Qed.

Lemma returned_dips_apart_witness :
  exists out,
    find_all_dips approx_math false
      [5; 5; 5; 4; 3; 5 # 2; 3; 4; 5; 5; 5; 48 # 10; 3; 2; 3; 48 # 10; 5]%Q
      3 (3 # 10) None None 2 (1 # 4) 0 true 200 50 true None = Ok out
    /\ len out = 2 /\ ForallOrdPairs apart out.
Proof.
  assert (exists out,
            find_all_dips approx_math false
              [5; 5; 5; 4; 3; 5 # 2; 3; 4; 5; 5; 5; 48 # 10; 3; 2; 3; 48 # 10; 5]%Q
              3 (3 # 10) None None 2 (1 # 4) 0 true 200 50 true None = Ok out
            /\ len out = 2)
    as [out [E Hlen]] by (eexists; split; [vm_compute; reflexivity | reflexivity]).
  exists out. split; [exact E|]. split; [exact Hlen|].
  exact (returned_dips_apart _ _ _ _ _ _ _ _ _ _ _ _ _ _ _ _ E).
Defined.
